(** * git-regex-search: a shallow embedding of [main.go]

    The program is a sequential orchestration script: it shells out to
    [git] for stash / fetch / checkout / pull and to [rg] or [grep] for
    the content search, and post-processes the captured text with a
    handful of functions of Go's [strings] package.

    Go strings are byte sequences; they are modelled by [string] (a list
    of 8-bit [ascii] characters).  The external world (file system,
    subprocesses, the regex compiler) is an oracle [World]; the program
    is written in a small trace-and-error monad over it. *)

From Stdlib Require Import List String Ascii Bool Arith Lia.
Import ListNotations.
Local Open Scope string_scope.
Local Open Scope list_scope.
Local Open Scope nat_scope.

(** ** Go's [strings] package, as far as [main.go] uses it *)

Module Strings.

Definition bytes := list ascii.

Definition code (a : ascii) : nat := nat_of_ascii a.

(** [unicode.IsSpace] on the UTF-8 encoding.  One-byte white space is
    '\t', '\n', '\v', '\f', '\r' and ' '; the two-byte sequences are
    U+0085 and U+00A0; the three-byte ones are U+1680, U+2000..U+200A,
    U+2028, U+2029, U+202F, U+205F and U+3000. *)
Definition isSpace1 (a : ascii) : bool :=
  let n := code a in
  ((9 <=? n) && (n <=? 13)) || (n =? 32).

Definition isSpace2 (a b : ascii) : bool :=
  (code a =? 194) && ((code b =? 133) || (code b =? 160)).

Definition isSpace3 (a b c : ascii) : bool :=
  let x := code a in
  let y := code b in
  let z := code c in
  ((x =? 225) && (y =? 154) && (z =? 128))
  || ((x =? 226) && (y =? 128)
      && (((128 <=? z) && (z <=? 138)) || (z =? 168) || (z =? 169) || (z =? 175)))
  || ((x =? 226) && (y =? 129) && (z =? 159))
  || ((x =? 227) && (y =? 128) && (z =? 128)).

Section Runes.

(** A set of runes given by the shapes of their encodings of one, two
    and three bytes, read from the front of a byte sequence. *)
Variable r1 : ascii -> bool.
Variable r2 : ascii -> ascii -> bool.
Variable r3 : ascii -> ascii -> ascii -> bool.

(** Does the sequence start with a rune of the set? *)
Definition startsWith (l : bytes) : bool :=
  match l with
  | [] => false
  | a :: t1 =>
      r1 a ||
      match t1 with
      | [] => false
      | b :: t2 =>
          r2 a b ||
          match t2 with
          | [] => false
          | c :: _ => r3 a b c
          end
      end
  end.

(** Drop the leading runes of the set (the loop of [TrimLeftFunc]). *)
Fixpoint dropRunes (l : bytes) : bytes :=
  match l with
  | [] => []
  | a :: t1 =>
      if r1 a then dropRunes t1
      else
        match t1 with
        | [] => l
        | b :: t2 =>
            if r2 a b then dropRunes t2
            else
              match t2 with
              | [] => l
              | c :: t3 => if r3 a b c then dropRunes t3 else l
              end
        end
  end.

End Runes.

Definition trimLeft (l : bytes) : bytes :=
  dropRunes isSpace1 isSpace2 isSpace3 l.

(** Seen from the end, the bytes of an encoding come in reverse order. *)
Definition isSpace2r (b a : ascii) : bool := isSpace2 a b.
Definition isSpace3r (c b a : ascii) : bool := isSpace3 a b c.

Definition trimRight (l : bytes) : bytes :=
  rev (dropRunes isSpace1 isSpace2r isSpace3r (rev l)).

Definition beginsWithSpace (l : bytes) : bool :=
  startsWith isSpace1 isSpace2 isSpace3 l.

Definition endsWithSpace (l : bytes) : bool :=
  startsWith isSpace1 isSpace2r isSpace3r (rev l).

(** Neither leading nor trailing white space. *)
Definition trimmed (l : bytes) : Prop :=
  beginsWithSpace l = false /\ endsWithSpace l = false.

(** [strings.TrimSpace]: leading white space is cut first, then trailing
    white space of what is left. *)
Definition TrimSpace (s : string) : string :=
  string_of_list_ascii (trimRight (trimLeft (list_ascii_of_string s))).

(** [strings.HasPrefix]. *)
Fixpoint HasPrefix (s prefix : string) : bool :=
  match prefix with
  | EmptyString => true
  | String p prefix' =>
      match s with
      | EmptyString => false
      | String c s' => Ascii.eqb c p && HasPrefix s' prefix'
      end
  end.

(** [s[n:]] *)
Fixpoint skip (n : nat) (s : string) : string :=
  match n with
  | 0 => s
  | S n' => match s with
            | EmptyString => EmptyString
            | String _ s' => skip n' s'
            end
  end.

(** [strings.TrimPrefix]: one occurrence of the prefix is cut, if any. *)
Definition TrimPrefix (s prefix : string) : string :=
  if HasPrefix s prefix then skip (String.length prefix) s else s.

(** [strings.Contains]. *)
Fixpoint Contains (s substr : string) : bool :=
  HasPrefix s substr ||
  match s with
  | EmptyString => false
  | String _ s' => Contains s' substr
  end.

(** [strings.Count] for a separator of one byte. *)
Fixpoint Count (sep : ascii) (s : string) : nat :=
  match s with
  | EmptyString => 0
  | String c s' => (if Ascii.eqb c sep then 1 else 0) + Count sep s'
  end.

(** The text before and after the first separator ([strings.Index] and
    the two slices of [genSplit]). *)
Fixpoint cut (sep : ascii) (s : string) : option (string * string) :=
  match s with
  | EmptyString => None
  | String c s' =>
      if Ascii.eqb c sep then Some (EmptyString, s')
      else match cut sep s' with
           | Some (before, after) => Some (String c before, after)
           | None => None
           end
  end.

(** The loop of [genSplit]: at most [n] more cuts, then the rest. *)
Fixpoint splitLoop (sep : ascii) (n : nat) (s : string) : list string :=
  match n with
  | 0 => [s]
  | S n' =>
      match cut sep s with
      | None => [s]
      | Some (before, after) => before :: splitLoop sep n' after
      end
  end.

(** [strings.SplitN] for a separator of one byte and [n >= 0]:
    [n = 0] gives nil, and [n] is capped by [len(s) + 1]. *)
Definition SplitN (s : string) (sep : ascii) (n : nat) : list string :=
  match Nat.min n (String.length s + 1) with
  | 0 => []
  | S k => splitLoop sep k s
  end.

(** [strings.Split]: [n < 0], replaced by [Count(s, sep) + 1]. *)
Definition Split (s : string) (sep : ascii) : list string :=
  SplitN s sep (Count sep s + 1).

End Strings.

Import Strings.

Definition comma : ascii := ","%char.
Definition colon : ascii := ":"%char.
Definition newline : ascii := "010"%char.

(** ** The outside world *)

(** The lines [main.go] prints on standard output.  Colours and emoji
    are left out: a line is recorded by its format and its arguments. *)
Inductive Line : Type :=
| LRepository (repoPath : string)
| LSearchPattern (regex : string)
| LCurrentBranch (currentBranch : string)
| LBlank
| LWarnNoRipgrep
| LStashing
| LFetching
| LSearchingAcross (n : nat)
| LSearchingBranch (branch : string)
| LPulling (branch : string)
| LFound (n : nat) (branch : string)
| LNoMatches (branch : string)
| LMatch (branch file lineNum lineText : string)
| LRestoringBranch (currentBranch : string)
| LRestoringStash
| LCompleted.

(** What the program does to the outside, in the order it does it. *)
Inductive Event : Type :=
| Stat (path : string)
| LookPath (file : string)
| Exec (dir name : string) (args : list string)
| Stdout (l : Line)
| Stderr (s : string).

Definition Trace := list Event.

(** The answers of the outside.  A subprocess answers with its captured
    output (stdout and stderr go to the same buffer) and the error of
    [cmd.Run], if any; it may answer differently each time, so the
    answer depends on everything done before.  Go errors are recorded
    by their message. *)
Record World : Type := {
  filepath_Abs : string -> string + string;
  os_IsNotExist : Trace -> string -> bool;
  exec_LookPath : Trace -> string -> bool;
  cmd_Run : Trace -> string -> string -> list string -> string * option string;
  regexp_Compile : string -> option string
}.

(** The errors the action returns, one per [fmt.Errorf] of [main.go]. *)
Inductive error : Type :=
| InvalidPath (err : string)
| NotAGitRepo (repoPath : string)
| GitCommandFailed (err : string)
| BranchListFailed (err : string)
| InvalidRegex (err : string)
| SearchFailed (branch err : string).

Definition Error (e : error) : string :=
  match e with
  | InvalidPath err => "invalid repo path: " ++ err
  | NotAGitRepo repoPath => "not a git repository: " ++ repoPath
  | GitCommandFailed err => "failed to get current branch: " ++ err
  | BranchListFailed err => "failed to list remote branches: " ++ err
  | InvalidRegex err => "invalid regex: " ++ err
  | SearchFailed branch err => "search failed on branch " ++ branch ++ ": " ++ err
  end%string.

Inductive result (A : Type) : Type :=
| Ok (a : A)
| Err (e : error).
Arguments Ok {A} a.
Arguments Err {A} e.

(** ** The monad: what was done so far goes in, what is done now and the
    result come out *)

Definition M (A : Type) : Type := Trace -> Trace * result A.

Definition ret {A} (a : A) : M A := fun _ => ([], Ok a).

Definition fail {A} (e : error) : M A := fun _ => ([], Err e).

Definition bind {A B} (m : M A) (k : A -> M B) : M B :=
  fun past =>
    match m past with
    | (done, Ok a) =>
        match k a (past ++ done) with
        | (done', r) => (done ++ done', r)
        end
    | (done, Err e) => (done, Err e)
    end.

Notation "x <- m ;; k" := (bind m (fun x => k))
  (at level 61, m at next level, right associativity).
Notation "' pat <- m ;; k" := (bind m (fun x => match x with pat => k end))
  (at level 61, pat pattern, m at next level, right associativity).
Notation "m ;; k" := (bind m (fun _ => k))
  (at level 61, right associativity).

Definition print (l : Line) : M unit := fun _ => ([Stdout l], Ok tt).

(** [for _, x := range xs { body }], left by the first error. *)
Fixpoint forEach {A} (xs : list A) (body : A -> M unit) : M unit :=
  match xs with
  | [] => ret tt
  | x :: xs' => body x ;; forEach xs' body
  end.

(** ** [main.go] *)

Record Context : Type := {
  c_repo : string;
  c_regex : string;
  c_branches : string;
  c_include_glob : list string;
  c_exclude_glob : list string
}.

(** What [app.Run] does with the command line: the framework deals with
    it alone (help, version, a flag that is missing) and returns its own
    error or none, or it calls the action with the flags. *)
Inductive AppRun : Type :=
| Handled (err : option string)
| Invoke (c : Context).

(** [filepath.Join(repoPath, ".git")] for a path [filepath.Abs] returned,
    which is clean: only the root ends in a separator. *)
Definition filepath_Join (dir name : string) : string :=
  match dir with
  | "/" => "/" ++ name
  | _ => dir ++ "/" ++ name
  end%string.

Section Program.

Variable W : World.

Definition stat_IsNotExist (path : string) : M bool :=
  fun past => ([Stat path], Ok (os_IsNotExist W past path)).

Definition run (dir name : string) (args : list string)
  : M (string * option string) :=
  fun past => ([Exec dir name args], Ok (cmd_Run W past dir name args)).

Definition runGitCmd (repoPath : string) (args : list string)
  : M (string * option string) :=
  '(out, err) <- run repoPath "git" args ;;
  ret (TrimSpace out, err).

Definition commandExists (cmd : string) : M bool :=
  fun past => ([LookPath cmd], Ok (exec_LookPath W past cmd)).

(** The arguments [grepRepo] adds for the globs. *)
Definition globArgs (bang : string) (globs : list string) : list string :=
  flat_map (fun g => if String.eqb (TrimSpace g) "" then []
                     else ["--glob"; (bang ++ g)%string]) globs.

Definition searchCmd (hasRg : bool) (pattern : string)
           (includeGlobs excludeGlobs : list string) : string * list string :=
  if hasRg then
    ("rg", ["-n"; "-uu"; "--pcre2"]
             ++ globArgs "" includeGlobs
             ++ globArgs "!" excludeGlobs
             ++ [pattern])
  else ("grep", ["-rnE"; pattern; "."]).

Definition grepRepo (repoPath pattern : string)
           (includeGlobs excludeGlobs : list string)
  : M (list string * option string) :=
  hasRg <- commandExists "rg" ;;
  let cmd := searchCmd hasRg pattern includeGlobs excludeGlobs in
  '(out, err) <- run repoPath (fst cmd) (snd cmd) ;;
  match err with
  | Some _ =>
      if String.length out =? 0 then ret ([], None)
      else ret (Split (TrimSpace out) newline, None)
  | None => ret (Split (TrimSpace out) newline, None)
  end.

(** Lines 146-151: the branches of [git branch -r]. *)
Definition remoteBranches (branchList : string) : list string :=
  flat_map (fun b =>
              let b := TrimSpace b in
              if negb (String.eqb b "") && negb (Contains b "->")
              then [TrimPrefix b "origin/"] else [])
           (Split branchList newline).

(** Lines 185-199: one line of the search tool. *)
Definition printMatch (branch match_ : string) : M unit :=
  let parts := SplitN match_ colon 3 in
  if List.length parts <? 3 then ret tt
  else
    let file := nth 0 parts "" in
    let lineNum := nth 1 parts "" in
    let lineText := nth 2 parts "" in
    print (LMatch branch file lineNum lineText).

(** Lines 179-199. *)
Definition report (branch : string) (matches : list string) : M unit :=
  (if 0 <? List.length matches then print (LFound (List.length matches) branch)
   else print (LNoMatches branch)) ;;
  forEach matches (printMatch branch).

(** Lines 164-200: the body of the loop over the branches. *)
Definition searchBranch (repoPath regex : string)
           (includeGlobs excludeGlobs : list string) (branch : string) : M unit :=
  let branch := TrimSpace branch in
  if String.eqb branch "" then ret tt
  else
    print (LSearchingBranch branch) ;;
    _ <- runGitCmd repoPath ["checkout"; branch] ;;
    print (LPulling branch) ;;
    _ <- runGitCmd repoPath ["pull"; "origin"; branch] ;;
    '(matches, err) <- grepRepo repoPath regex includeGlobs excludeGlobs ;;
    match err with
    | Some e => fail (SearchFailed branch e)
    | None => report branch matches
    end.

(** Lines 138-152. *)
Definition listBranches (repoPath branchesArg : string) : M (list string) :=
  if negb (String.eqb branchesArg "") then ret (Split branchesArg comma)
  else
    '(branchList, err) <- runGitCmd repoPath ["branch"; "-r"] ;;
    match err with
    | Some e => fail (BranchListFailed e)
    | None => ret (remoteBranches branchList)
    end.

(** Lines 98-211: the action of the command. *)
Definition Action (c : Context) : M unit :=
  match filepath_Abs W (c_repo c) with
  | inr e => fail (InvalidPath e)
  | inl repoPath =>
      let regex := c_regex c in
      let branchesArg := c_branches c in
      let includeGlobs := c_include_glob c in
      let excludeGlobs := c_exclude_glob c in
      missing <- stat_IsNotExist (filepath_Join repoPath ".git") ;;
      if missing then fail (NotAGitRepo repoPath)
      else
        '(currentBranch, err) <-
           runGitCmd repoPath ["rev-parse"; "--abbrev-ref"; "HEAD"] ;;
        match err with
        | Some e => fail (GitCommandFailed e)
        | None =>
            print (LRepository repoPath) ;;
            print (LSearchPattern regex) ;;
            print (LCurrentBranch currentBranch) ;;
            print LBlank ;;
            (if (0 <? List.length includeGlobs) || (0 <? List.length excludeGlobs)
             then
               hasRg <- commandExists "rg" ;;
               if negb hasRg then print LWarnNoRipgrep else ret tt
             else ret tt) ;;
            print LStashing ;;
            _ <- runGitCmd repoPath
                   ["stash"; "push"; "-u"; "-m"; "git-regex-search-temp-stash"] ;;
            print LFetching ;;
            _ <- runGitCmd repoPath ["fetch"; "--all"; "--quiet"] ;;
            branches <- listBranches repoPath branchesArg ;;
            match regexp_Compile W regex with
            | Some e => fail (InvalidRegex e)
            | None =>
                print (LSearchingAcross (List.length branches)) ;;
                forEach branches
                        (searchBranch repoPath regex includeGlobs excludeGlobs) ;;
                print LBlank ;;
                print (LRestoringBranch currentBranch) ;;
                _ <- runGitCmd repoPath ["checkout"; currentBranch] ;;
                print LRestoringStash ;;
                _ <- runGitCmd repoPath ["stash"; "pop"] ;;
                print LCompleted ;;
                ret tt
            end
        end
  end.

(** Lines 214-217: the events of the run and the exit code. *)
Definition main (a : AppRun) : Trace * nat :=
  match a with
  | Handled None => ([], 0)
  | Handled (Some err) => ([Stderr ("Error: " ++ err ++ String newline "")%string], 1)
  | Invoke c =>
      match Action c [] with
      | (done, Ok _) => (done, 0)
      | (done, Err e) =>
          (done ++ [Stderr ("Error: " ++ Error e ++ String newline "")%string], 1)
      end
  end.

End Program.

(** ** Observations on a trace *)

(** The arguments of the [git] invocations, in order. *)
Definition gitCalls (t : Trace) : list (list string) :=
  flat_map (fun e => match e with
                     | Exec _ "git" args => [args]
                     | _ => []
                     end) t.

(** Every subprocess that was started. *)
Definition subprocesses (t : Trace) : list (string * list string) :=
  flat_map (fun e => match e with
                     | Exec _ name args => [(name, args)]
                     | _ => []
                     end) t.

Definition stdout (t : Trace) : list Line :=
  flat_map (fun e => match e with Stdout l => [l] | _ => [] end) t.

Definition stderr (t : Trace) : list string :=
  flat_map (fun e => match e with Stderr s => [s] | _ => [] end) t.

(** The branches the loop went to: it pulls each one it checks out. *)
Definition visited (t : Trace) : list string :=
  flat_map (fun args => match args with
                        | ["pull"; "origin"; branch] => [branch]
                        | _ => []
                        end) (gitCalls t).

Definition isMatchLine (l : Line) : bool :=
  match l with LMatch _ _ _ _ => true | _ => false end.

(** The match lines among the printed lines. *)
Definition matchLines (t : Trace) : list Line := filter isMatchLine (stdout t).

(** The lines the loop prints. *)
Definition loopLine (l : Line) : bool :=
  match l with
  | LSearchingBranch _ | LPulling _ | LFound _ _ | LNoMatches _ | LMatch _ _ _ _ => true
  | _ => false
  end.

(** The git commands of one visit. *)
Definition visit (branch : string) : list (list string) :=
  [["checkout"; branch]; ["pull"; "origin"; branch]].

Definition stashPush : list string :=
  ["stash"; "push"; "-u"; "-m"; "git-regex-search-temp-stash"].
Definition fetchAll : list string := ["fetch"; "--all"; "--quiet"].
Definition stashPop : list string := ["stash"; "pop"].

Definition revParse : list string := ["rev-parse"; "--abbrev-ref"; "HEAD"].
Definition branchR : list string := ["branch"; "-r"].

Definition nonEmpty (s : string) : bool := negb (String.eqb s "").

(** The names the loop works with: each entry trimmed, the empty ones
    skipped (lines 165-168). *)
Definition names (branches : list string) : list string :=
  filter nonEmpty (map TrimSpace branches).

(** Lines 147 and 149 on one line of [git branch -r]. *)
Definition normalize (b : string) : string :=
  TrimPrefix (TrimSpace b) "origin/".

(** Has the line of the search tool two separators or more? *)
Definition wellFormed (match_ : string) : bool := 2 <=? Count colon match_.

(** The line printed for a line of the search tool (lines 190-198). *)
Definition matchLine (branch match_ : string) : Line :=
  let parts := SplitN match_ colon 3 in
  LMatch branch (nth 0 parts "") (nth 1 parts "") (nth 2 parts "").

(** The line with the count (lines 179-183). *)
Definition countLine (branch : string) (matches : list string) : Line :=
  if 0 <? List.length matches then LFound (List.length matches) branch
  else LNoMatches branch.

(** What [grepRepo] makes of the answer of the search tool (lines 62-66). *)
Definition matchesOf (answer : string * option string) : list string :=
  match snd answer with
  | Some _ =>
      if String.length (fst answer) =? 0 then []
      else Split (TrimSpace (fst answer)) newline
  | None => Split (TrimSpace (fst answer)) newline
  end.

(** Events put in front of the events of the rest of a computation. *)
Definition emit {A} (evs : Trace) (x : Trace * result A) : Trace * result A :=
  (evs ++ fst x, snd x).

(** *** The runs of the program, described from outside *)

(** The events of the loop over the branches: nothing for an entry that
    is empty once trimmed; otherwise checkout, pull, the search with
    [rg] or [grep], the count and the match lines. *)
Inductive Visits (repoPath : string) : list string -> Trace -> Prop :=
| Visits_nil : Visits repoPath [] []
| Visits_skip b bs t :
    TrimSpace b = "" ->
    Visits repoPath bs t ->
    Visits repoPath (b :: bs) t
| Visits_visit b bs name args matches t :
    TrimSpace b <> "" ->
    name = "rg" \/ name = "grep" ->
    Visits repoPath bs t ->
    Visits repoPath (b :: bs)
           ([Stdout (LSearchingBranch (TrimSpace b));
             Exec repoPath "git" ["checkout"; TrimSpace b];
             Stdout (LPulling (TrimSpace b));
             Exec repoPath "git" ["pull"; "origin"; TrimSpace b];
             LookPath "rg";
             Exec repoPath name args;
             Stdout (countLine (TrimSpace b) matches)]
              ++ map (fun m => Stdout (matchLine (TrimSpace b) m))
                     (filter wellFormed matches)
              ++ t).

(** The events up to the fetch: the checks, the header, the warning
    about the globs when there is no [rg], the stash and the fetch. *)
Inductive Preamble (W : World) (c : Context) (repoPath currentBranch : string)
  : Trace -> Prop :=
| Preamble_intro out warning :
    filepath_Abs W (c_repo c) = inl repoPath ->
    os_IsNotExist W [] (filepath_Join repoPath ".git") = false ->
    cmd_Run W [Stat (filepath_Join repoPath ".git")] repoPath "git" revParse
      = (out, None) ->
    currentBranch = TrimSpace out ->
    warning = [] \/ warning = [LookPath "rg"]
      \/ warning = [LookPath "rg"; Stdout LWarnNoRipgrep] ->
    Preamble W c repoPath currentBranch
             ([Stat (filepath_Join repoPath ".git");
               Exec repoPath "git" revParse;
               Stdout (LRepository repoPath);
               Stdout (LSearchPattern (c_regex c));
               Stdout (LCurrentBranch currentBranch);
               Stdout LBlank]
                ++ warning
                ++ [Stdout LStashing;
                    Exec repoPath "git" stashPush;
                    Stdout LFetching;
                    Exec repoPath "git" fetchAll]).

(** The branches to go through: the entries of [--branches], or the
    remote branches [git branch -r] lists. *)
Inductive Listing (W : World) (c : Context) (repoPath : string) (past : Trace)
  : Trace -> list string -> Prop :=
| Listing_explicit :
    c_branches c <> "" ->
    Listing W c repoPath past [] (Split (c_branches c) comma)
| Listing_remote out :
    c_branches c = "" ->
    cmd_Run W past repoPath "git" branchR = (out, None) ->
    Listing W c repoPath past [Exec repoPath "git" branchR]
            (remoteBranches (TrimSpace out)).

(** Every way the action ends, with the events it leaves. *)
Inductive Outcome (W : World) (c : Context) : Trace -> result unit -> Prop :=
| Outcome_InvalidPath e :
    filepath_Abs W (c_repo c) = inr e ->
    Outcome W c [] (Err (InvalidPath e))
| Outcome_NotAGitRepo repoPath :
    filepath_Abs W (c_repo c) = inl repoPath ->
    os_IsNotExist W [] (filepath_Join repoPath ".git") = true ->
    Outcome W c [Stat (filepath_Join repoPath ".git")] (Err (NotAGitRepo repoPath))
| Outcome_GitCommandFailed repoPath out e :
    filepath_Abs W (c_repo c) = inl repoPath ->
    os_IsNotExist W [] (filepath_Join repoPath ".git") = false ->
    cmd_Run W [Stat (filepath_Join repoPath ".git")] repoPath "git" revParse
      = (out, Some e) ->
    Outcome W c [Stat (filepath_Join repoPath ".git"); Exec repoPath "git" revParse]
            (Err (GitCommandFailed e))
| Outcome_BranchListFailed repoPath currentBranch pre out e :
    Preamble W c repoPath currentBranch pre ->
    c_branches c = "" ->
    cmd_Run W pre repoPath "git" branchR = (out, Some e) ->
    Outcome W c (pre ++ [Exec repoPath "git" branchR]) (Err (BranchListFailed e))
| Outcome_InvalidRegex repoPath currentBranch pre listing branches e :
    Preamble W c repoPath currentBranch pre ->
    Listing W c repoPath pre listing branches ->
    regexp_Compile W (c_regex c) = Some e ->
    Outcome W c (pre ++ listing) (Err (InvalidRegex e))
| Outcome_Completed repoPath currentBranch pre listing branches loop :
    Preamble W c repoPath currentBranch pre ->
    Listing W c repoPath pre listing branches ->
    regexp_Compile W (c_regex c) = None ->
    Visits repoPath branches loop ->
    Outcome W c
            (pre ++ listing
                 ++ [Stdout (LSearchingAcross (List.length branches))]
                 ++ loop
                 ++ [Stdout LBlank;
                     Stdout (LRestoringBranch currentBranch);
                     Exec repoPath "git" ["checkout"; currentBranch];
                     Stdout LRestoringStash;
                     Exec repoPath "git" stashPop;
                     Stdout LCompleted])
            (Ok tt).

(** A run ends with code 0 and nothing on standard error. *)
Definition successExit (x : Trace * nat) : Prop :=
  snd x = 0 /\ stderr (fst x) = [].

(** A run ends with another code and one line [Error: <message>] on
    standard error, the last thing it does. *)
Definition fatalExit (x : Trace * nat) : Prop :=
  snd x <> 0
  /\ exists msg before,
      fst x = before ++ [Stderr ("Error: " ++ msg ++ String newline "")%string]
      /\ stderr before = [].

(** *** The run of the action, step by step *)

(** The checks and the header (lines 110-123). *)
Definition header (c : Context) (repoPath currentBranch : string) : Trace :=
  [Stat (filepath_Join repoPath ".git");
   Exec repoPath "git" revParse;
   Stdout (LRepository repoPath);
   Stdout (LSearchPattern (c_regex c));
   Stdout (LCurrentBranch currentBranch);
   Stdout LBlank].

(** Lines 125-128: [rg] is looked for when a glob is given only, and the
    warning is printed when it is not found. *)
Definition warningOf (W : World) (c : Context) (past : Trace) : Trace :=
  if (0 <? List.length (c_include_glob c)) || (0 <? List.length (c_exclude_glob c))
  then LookPath "rg"
         :: (if exec_LookPath W past "rg" then [] else [Stdout LWarnNoRipgrep])
  else [].

(** Everything up to the fetch (lines 110-136). *)
Definition preambleOf (W : World) (c : Context) (repoPath currentBranch : string)
  : Trace :=
  header c repoPath currentBranch
    ++ warningOf W c (header c repoPath currentBranch)
    ++ [Stdout LStashing;
        Exec repoPath "git" stashPush;
        Stdout LFetching;
        Exec repoPath "git" fetchAll].

(** Lines 202-209. *)
Definition closing (repoPath currentBranch : string) : Trace :=
  [Stdout LBlank;
   Stdout (LRestoringBranch currentBranch);
   Exec repoPath "git" ["checkout"; currentBranch];
   Stdout LRestoringStash;
   Exec repoPath "git" stashPop;
   Stdout LCompleted].

(** The action with its binds carried out: the answers of the world
    decide, in this order, where the run ends. *)
Definition unfolded (W : World) (c : Context) : Trace * result unit :=
  match filepath_Abs W (c_repo c) with
  | inr e => ([], Err (InvalidPath e))
  | inl repoPath =>
      let dotGit := filepath_Join repoPath ".git" in
      if os_IsNotExist W [] dotGit then ([Stat dotGit], Err (NotAGitRepo repoPath))
      else
        match cmd_Run W [Stat dotGit] repoPath "git" revParse with
        | (_, Some e) =>
            ([Stat dotGit; Exec repoPath "git" revParse], Err (GitCommandFailed e))
        | (out, None) =>
            let currentBranch := TrimSpace out in
            let pre := preambleOf W c repoPath currentBranch in
            match listBranches W repoPath (c_branches c) pre with
            | (listing, Err e) => (pre ++ listing, Err e)
            | (listing, Ok branches) =>
                match regexp_Compile W (c_regex c) with
                | Some e => (pre ++ listing, Err (InvalidRegex e))
                | None =>
                    let across := [Stdout (LSearchingAcross (List.length branches))] in
                    (pre ++ listing ++ across
                         ++ fst (forEach branches
                                         (searchBranch W repoPath (c_regex c)
                                                       (c_include_glob c)
                                                       (c_exclude_glob c))
                                         (pre ++ listing ++ across))
                         ++ closing repoPath currentBranch,
                     Ok tt)
                end
            end
        end
  end.

(** *** More observations *)

(** The subprocesses that are not git: the search tool. *)
Definition searches (t : Trace) : list (string * list string) :=
  filter (fun x => negb (String.eqb (fst x) "git")) (subprocesses t).

(** The directories the subprocesses were started in. *)
Definition dirs (t : Trace) : list string :=
  flat_map (fun e => match e with Exec dir _ _ => [dir] | _ => [] end) t.

(** The numbers announced by "Found n matches". *)
Definition counts (t : Trace) : list nat :=
  flat_map (fun l => match l with
                     | LFound n _ => [n]
                     | LNoMatches _ => [0]
                     | _ => []
                     end) (stdout t).

(** The numbers announced by "Searching across n branches". *)
Definition announced (t : Trace) : list nat :=
  flat_map (fun l => match l with LSearchingAcross n => [n] | _ => [] end) (stdout t).

(** Is a glob given (line 126)? *)
Definition globsGiven (c : Context) : bool :=
  (0 <? List.length (c_include_glob c)) || (0 <? List.length (c_exclude_glob c)).

(** A glob [grepRepo] passes on (lines 39 and 45). *)
Definition notBlank (g : string) : bool := negb (String.eqb (TrimSpace g) "").

(** [strings.Join] for a separator of one byte. *)
Fixpoint Join (elems : list string) (sep : ascii) : string :=
  match elems with
  | [] => ""
  | [e] => e
  | e :: rest => (e ++ String sep (Join rest sep))%string
  end.

(** A line of [git branch -r] for a branch of the remote [origin]. *)
Definition remoteLine (branch : string) : string := ("  origin/" ++ branch)%string.

(** What [git branch -r] lists for the remote [origin]: a branch, or a
    symbolic ref such as [origin/HEAD -> origin/main]. *)
Inductive RemoteRef : Type :=
| Branch (name : string)
| Symbolic (name target : string).

(** The text after [origin/] on the line of a ref. *)
Definition refText (r : RemoteRef) : string :=
  match r with
  | Branch name => name
  | Symbolic name target => (name ++ " -> origin/" ++ target)%string
  end.

Definition renderRef (r : RemoteRef) : string := remoteLine (refText r).

(** The whole answer of [git branch -r]: a line for each ref. *)
Definition renderRefs (refs : list RemoteRef) : string :=
  (Join (map renderRef refs) newline ++ String newline "")%string.

(** Bytes that end with [n/] and a name that is not empty and does not
    end in white space, as a line of the listing does. *)
Definition endsInName (l : bytes) : Prop :=
  exists front name,
    l = front ++ "n"%char :: "/"%char :: name
    /\ name <> [] /\ endsWithSpace name = false.

(** The branches the program reads in the listing: a line with [->] is
    taken for a symbolic ref, so a branch with [->] in its own name is
    left out with them. *)
Definition branchesOf (refs : list RemoteRef) : list string :=
  flat_map (fun r => match r with
                     | Branch name => if Contains name "->" then [] else [name]
                     | Symbolic _ _ => []
                     end) refs.

(** A name that is not empty, on one line, and does not end in white
    space. *)
Definition plainName (name : string) : Prop :=
  name <> ""
  /\ Count newline name = 0
  /\ endsWithSpace (list_ascii_of_string name) = false.

Definition plainRef (r : RemoteRef) : Prop :=
  match r with
  | Branch name => plainName name
  | Symbolic name target => Count newline name = 0 /\ plainName target
  end.

(** ** A small world to run the program in *)

Module Demo.

(** The branch checked out last, [main] at the start. *)
Fixpoint head (past : Trace) (current : string) : string :=
  match past with
  | [] => current
  | Exec _ "git" ["checkout"; b] :: rest => head rest b
  | _ :: rest => head rest current
  end.

Definition lf : string := String newline "".

Definition remotes : string :=
  ("  origin/HEAD -> origin/main" ++ lf ++ "  origin/main" ++ lf
   ++ "  origin/feature-x" ++ lf)%string.

(** A repository at [/repo] on [main], with the remote branches [main]
    and [feature-x]; [rg] is installed and answers with [search]. *)
Definition worldWith (search : Trace -> string * option string) : World := {|
  filepath_Abs := fun p => inl p;
  os_IsNotExist := fun _ p => negb (String.eqb p "/repo/.git");
  exec_LookPath := fun _ _ => true;
  cmd_Run := fun past _ name args =>
    match name, args with
    | "git", ["rev-parse"; "--abbrev-ref"; "HEAD"] => (("main" ++ lf)%string, None)
    | "git", ["branch"; "-r"] => (remotes, None)
    | "git", _ => ("", None)
    | _, _ => search past
    end;
  regexp_Compile := fun r =>
    if String.eqb r "(" then Some "error parsing regexp: missing closing ): `(`"
    else None
|}.

(** [main] has one line with TODO, [feature-x] has none: the search
    tool prints nothing and exits with status 1. *)
Definition world : World :=
  worldWith (fun past =>
               if String.eqb (head past "main") "main"
               then (("foo.go:10:// TODO fix" ++ lf)%string, None)
               else ("", Some "exit status 1")).

(** A file of the tree cannot be read and nothing matches: the search
    tool prints the error and exits with status 2. *)
Definition unreadable : World :=
  worldWith (fun _ => (("rg: ./secret.key: Permission denied (os error 13)" ++ lf)%string,
                       Some "exit status 2")).

(** The search tool exits with status 0 and an empty line. *)
Definition silent : World := worldWith (fun _ => (lf, None)).

Definition request (repo regex branches : string) : Context :=
  {| c_repo := repo; c_regex := regex; c_branches := branches;
     c_include_glob := []; c_exclude_glob := [] |}.

End Demo.

(** The same repository on a machine without [rg]. *)
Module Fallback.

Definition world : World := {|
  filepath_Abs := filepath_Abs Demo.world;
  os_IsNotExist := os_IsNotExist Demo.world;
  exec_LookPath := fun _ _ => false;
  cmd_Run := cmd_Run Demo.world;
  regexp_Compile := regexp_Compile Demo.world
|}.

Definition request (regex branches : string) (includeGlobs excludeGlobs : list string)
  : Context :=
  {| c_repo := "/repo"; c_regex := regex; c_branches := branches;
     c_include_glob := includeGlobs; c_exclude_glob := excludeGlobs |}.

End Fallback.

(** The repository with one more remote branch, [fix->headers]. *)
Module Arrows.

Definition refs : list RemoteRef :=
  [Symbolic "HEAD" "main"; Branch "main"; Branch "fix->headers"; Branch "feature-x"].

Definition world : World := {|
  filepath_Abs := filepath_Abs Demo.world;
  os_IsNotExist := os_IsNotExist Demo.world;
  exec_LookPath := exec_LookPath Demo.world;
  cmd_Run := fun past dir name args =>
    match name, args with
    | "git", ["branch"; "-r"] => (renderRefs refs, None)
    | _, _ => cmd_Run Demo.world past dir name args
    end;
  regexp_Compile := regexp_Compile Demo.world
|}.

End Arrows.

(** ** The program at work *)

Example Split_branches : Split "main,dev" comma = ["main"; "dev"].
Proof. reflexivity. Qed.

Example Split_nothing : Split "" newline = [""].
Proof. reflexivity. Qed.

Example SplitN_match :
  SplitN "foo.go:10:// TODO: fix" colon 3 = ["foo.go"; "10"; "// TODO: fix"].
Proof. reflexivity. Qed.

Example SplitN_two_parts : SplitN "Binary file a.out matches" colon 3
                           = ["Binary file a.out matches"].
Proof. reflexivity. Qed.

Example TrimSpace_ascii :
  TrimSpace (String "009" "  origin/main " ++ Demo.lf)%string = "origin/main".
Proof. reflexivity. Qed.

(** U+00A0 in front, U+2003 behind. *)
Example TrimSpace_unicode :
  TrimSpace (String "194" (String "160" "x")
             ++ String "226" (String "128" (String "131" "")))%string
  = "x".
Proof. reflexivity. Qed.

Example remoteBranches_demo : remoteBranches Demo.remotes = ["main"; "feature-x"].
Proof. reflexivity. Qed.

(** The scenario of the specification: [main] and [feature-x], the
    pattern TODO, one matching line on [main]. *)
Example end_to_end :
  main Demo.world (Invoke (Demo.request "/repo" "TODO" ""))
  = ([Stat "/repo/.git";
      Exec "/repo" "git" revParse;
      Stdout (LRepository "/repo");
      Stdout (LSearchPattern "TODO");
      Stdout (LCurrentBranch "main");
      Stdout LBlank;
      Stdout LStashing;
      Exec "/repo" "git" stashPush;
      Stdout LFetching;
      Exec "/repo" "git" fetchAll;
      Exec "/repo" "git" branchR;
      Stdout (LSearchingAcross 2);
      Stdout (LSearchingBranch "main");
      Exec "/repo" "git" ["checkout"; "main"];
      Stdout (LPulling "main");
      Exec "/repo" "git" ["pull"; "origin"; "main"];
      LookPath "rg";
      Exec "/repo" "rg" ["-n"; "-uu"; "--pcre2"; "TODO"];
      Stdout (LFound 1 "main");
      Stdout (LMatch "main" "foo.go" "10" "// TODO fix");
      Stdout (LSearchingBranch "feature-x");
      Exec "/repo" "git" ["checkout"; "feature-x"];
      Stdout (LPulling "feature-x");
      Exec "/repo" "git" ["pull"; "origin"; "feature-x"];
      LookPath "rg";
      Exec "/repo" "rg" ["-n"; "-uu"; "--pcre2"; "TODO"];
      Stdout (LNoMatches "feature-x");
      Stdout LBlank;
      Stdout (LRestoringBranch "main");
      Exec "/repo" "git" ["checkout"; "main"];
      Stdout LRestoringStash;
      Exec "/repo" "git" stashPop;
      Stdout LCompleted],
     0).
Proof. reflexivity. Qed.

(** ** Facts about the string functions *)

Module StringFacts.

Lemma list_length_ind {A} (P : list A -> Prop) :
  (forall l, (forall l', List.length l' < List.length l -> P l') -> P l) ->
  forall l, P l.
Proof.
  intros step l.
  remember (List.length l) as n eqn:Hn.
  revert l Hn.
  induction n as [n IH] using lt_wf_ind.
  intros l Hn. apply step. intros l' Hlt.
  apply (IH (List.length l')); [lia | reflexivity].
Qed.

Section Runes.

Variable r1 : ascii -> bool.
Variable r2 : ascii -> ascii -> bool.
Variable r3 : ascii -> ascii -> ascii -> bool.


Lemma dropRunes_unfold (l : bytes) :
  dropRunes r1 r2 r3 l = match l with
           | [] => []
           | a :: t1 =>
               if r1 a then dropRunes r1 r2 r3 t1
               else match t1 with
                    | [] => l
                    | b :: t2 =>
                        if r2 a b then dropRunes r1 r2 r3 t2
                        else match t2 with
                             | [] => l
                             | c :: t3 => if r3 a b c then dropRunes r1 r2 r3 t3 else l
                             end
                    end
           end.
Proof. destruct l; reflexivity. Qed.

(** What is left does not start with a rune of the set. *)
Lemma dropRunes_starts (l : bytes) : startsWith r1 r2 r3 (dropRunes r1 r2 r3 l) = false.
Proof.
  induction l as [l IH] using list_length_ind.
  rewrite dropRunes_unfold.
  destruct l as [|a t1]; [reflexivity|].
  destruct (r1 a) eqn:E1; [apply IH; simpl; lia|].
  destruct t1 as [|b t2]; [simpl; rewrite E1; reflexivity|].
  destruct (r2 a b) eqn:E2; [apply IH; simpl; lia|].
  destruct t2 as [|c t3]; [simpl; rewrite E1, E2; reflexivity|].
  destruct (r3 a b c) eqn:E3; [apply IH; simpl; lia|].
  simpl. rewrite E1, E2, E3. reflexivity.
Qed.

(** Nothing is cut from a sequence that starts with none. *)
Lemma dropRunes_id (l : bytes) : startsWith r1 r2 r3 l = false -> dropRunes r1 r2 r3 l = l.
Proof.
  intros H. rewrite dropRunes_unfold.
  destruct l as [|a t1]; [reflexivity|].
  simpl in H. apply orb_false_iff in H. destruct H as [E1 H]. rewrite E1.
  destruct t1 as [|b t2]; [reflexivity|].
  apply orb_false_iff in H. destruct H as [E2 H]. rewrite E2.
  destruct t2 as [|c t3]; [reflexivity|].
  rewrite H. reflexivity.
Qed.

(** What is left is an end of the sequence. *)
Lemma dropRunes_suffix (l : bytes) : exists p, l = p ++ dropRunes r1 r2 r3 l.
Proof.
  induction l as [l IH] using list_length_ind.
  rewrite dropRunes_unfold.
  destruct l as [|a t1]; [exists []; reflexivity|].
  destruct (r1 a).
  { destruct (IH t1) as [p Hp]; [simpl; lia|].
    exists (a :: p). simpl. f_equal. exact Hp. }
  destruct t1 as [|b t2]; [exists []; reflexivity|].
  destruct (r2 a b).
  { destruct (IH t2) as [p Hp]; [simpl; lia|].
    exists (a :: b :: p). simpl. do 2 f_equal. exact Hp. }
  destruct t2 as [|c t3]; [exists []; reflexivity|].
  destruct (r3 a b c).
  { destruct (IH t3) as [p Hp]; [simpl; lia|].
    exists (a :: b :: c :: p). simpl. do 3 f_equal. exact Hp. }
  exists []. reflexivity.
Qed.

(** A rune at the start stays there when the sequence goes on. *)
Lemma startsWith_app (p x : bytes) : startsWith r1 r2 r3 p = true -> startsWith r1 r2 r3 (p ++ x) = true.
Proof.
  destruct p as [|a [|b [|c t]]]; simpl; intros H; try discriminate.
  - rewrite orb_false_r in H. rewrite H. reflexivity.
  - destruct (r1 a); [reflexivity|]. simpl in *.
    rewrite orb_false_r in H. rewrite H. reflexivity.
  - exact H.
Qed.

Lemma startsWith_app_false (p x : bytes) :
  startsWith r1 r2 r3 (p ++ x) = false -> startsWith r1 r2 r3 p = false.
Proof.
  intros H. destruct (startsWith r1 r2 r3 p) eqn:E; [|reflexivity].
  rewrite (startsWith_app p x E) in H. discriminate.
Qed.

End Runes.

Lemma trimLeft_begins l : beginsWithSpace (trimLeft l) = false.
Proof. apply dropRunes_starts. Qed.

Lemma trimLeft_id l : beginsWithSpace l = false -> trimLeft l = l.
Proof. apply dropRunes_id. Qed.

Lemma trimRight_ends l : endsWithSpace (trimRight l) = false.
Proof.
  unfold endsWithSpace, trimRight. rewrite rev_involutive. apply dropRunes_starts.
Qed.

Lemma trimRight_id l : endsWithSpace l = false -> trimRight l = l.
Proof.
  intros H. unfold trimRight. rewrite dropRunes_id by exact H.
  apply rev_involutive.
Qed.

Lemma trimRight_prefix l : exists x, l = trimRight l ++ x.
Proof.
  unfold trimRight.
  destruct (dropRunes_suffix isSpace1 isSpace2r isSpace3r (rev l)) as [p Hp].
  exists (rev p).
  rewrite <- rev_app_distr, <- Hp, rev_involutive. reflexivity.
Qed.

Lemma trimRight_begins l :
  beginsWithSpace l = false -> beginsWithSpace (trimRight l) = false.
Proof.
  intros H. destruct (trimRight_prefix l) as [x Hx].
  rewrite Hx in H. exact (startsWith_app_false _ _ _ _ _ H).
Qed.

(** An end of a sequence that does not end in white space does not end in
    white space either. *)
Lemma ends_suffix p l : endsWithSpace (p ++ l) = false -> endsWithSpace l = false.
Proof.
  unfold endsWithSpace. rewrite rev_app_distr. apply startsWith_app_false.
Qed.

Lemma trim_trimmed l : trimmed (trimRight (trimLeft l)).
Proof.
  split.
  - apply trimRight_begins, trimLeft_begins.
  - apply trimRight_ends.
Qed.

Lemma trimmed_id l : trimmed l -> trimRight (trimLeft l) = l.
Proof.
  intros [Hb He]. rewrite trimLeft_id by exact Hb. apply trimRight_id, He.
Qed.

(** [TrimSpace] leaves its own results alone. *)
Lemma TrimSpace_idempotent (s : string) : TrimSpace (TrimSpace s) = TrimSpace s.
Proof.
  unfold TrimSpace. rewrite list_ascii_of_string_of_list_ascii.
  rewrite trimmed_id by apply trim_trimmed. reflexivity.
Qed.

(** *** Splitting *)

Lemma Count_le_length sep s : Count sep s <= String.length s.
Proof.
  induction s as [|c s IH]; simpl; [lia|].
  destruct (Ascii.eqb c sep); lia.
Qed.

Lemma cut_None sep s : cut sep s = None <-> Count sep s = 0.
Proof.
  induction s as [|c s IH]; simpl; [tauto|].
  destruct (Ascii.eqb c sep).
  - split; [discriminate | lia].
  - destruct (cut sep s) as [[a b]|]; simpl.
    + split; [discriminate|]. intros H. apply IH in H. discriminate.
    + split; [|reflexivity]. intros _. apply IH. reflexivity.
Qed.

(** The first separator is where the cut is. *)
Lemma cut_Some sep s a b :
  cut sep s = Some (a, b) ->
  s = (a ++ String sep b)%string /\ Count sep a = 0 /\ Count sep s = S (Count sep b).
Proof.
  revert a. induction s as [|c s IH]; simpl; intros a H; [discriminate|].
  destruct (Ascii.eqb c sep) eqn:E.
  - injection H as <- <-. apply Ascii.eqb_eq in E. subst c. auto.
  - destruct (cut sep s) as [[a' b']|]; [|discriminate].
    injection H as <- <-.
    destruct (IH a' eq_refl) as (Hs & Ha & Hc).
    simpl. rewrite E. repeat split; [f_equal; exact Hs | exact Ha | exact Hc].
Qed.

Lemma splitLoop_length sep k s :
  List.length (splitLoop sep k s) = S (Nat.min k (Count sep s)).
Proof.
  revert s. induction k as [|k IH]; intros s; simpl; [reflexivity|].
  destruct (cut sep s) as [[a b]|] eqn:E.
  - apply cut_Some in E. destruct E as (_ & _ & ->). simpl. rewrite IH. reflexivity.
  - apply cut_None in E. rewrite E. reflexivity.
Qed.

(** [SplitN] gives one part more than there are separators, [n] at most. *)
Lemma SplitN_length s sep n :
  List.length (SplitN s sep n) = Nat.min n (Count sep s + 1).
Proof.
  unfold SplitN. pose proof (Count_le_length sep s) as Hle.
  destruct (Nat.min n (String.length s + 1)) as [|k] eqn:E.
  - simpl. lia.
  - rewrite splitLoop_length. lia.
Qed.

(** With two separators or more, the three parts are the file, the line
    number and the text, and they make up the line. *)
Lemma SplitN_three s :
  2 <= Count colon s ->
  exists file lineNum lineText,
    SplitN s colon 3 = [file; lineNum; lineText]
    /\ s = (file ++ String colon (lineNum ++ String colon lineText))%string
    /\ Count colon file = 0 /\ Count colon lineNum = 0.
Proof.
  intros H. unfold SplitN. pose proof (Count_le_length colon s) as Hle.
  replace (Nat.min 3 (String.length s + 1)) with 3 by lia.
  simpl.
  destruct (cut colon s) as [[a b]|] eqn:E1.
  2:{ apply cut_None in E1. lia. }
  apply cut_Some in E1. destruct E1 as (Hs & Ha & Hc).
  destruct (cut colon b) as [[a' b']|] eqn:E2.
  2:{ apply cut_None in E2. lia. }
  apply cut_Some in E2. destruct E2 as (Hs' & Ha' & Hc').
  exists a, a', b'. subst b. auto.
Qed.

(** *** Prefixes *)

Lemma skip_suffix n s :
  exists p, list_ascii_of_string s = p ++ list_ascii_of_string (skip n s).
Proof.
  revert s. induction n as [|n IH]; intros s; simpl.
  - exists []. reflexivity.
  - destruct s as [|c s]; [exists []; reflexivity|].
    destruct (IH s) as [p Hp]. exists (c :: p). simpl. f_equal. exact Hp.
Qed.

Lemma TrimPrefix_suffix s prefix :
  exists p, list_ascii_of_string s = p ++ list_ascii_of_string (TrimPrefix s prefix).
Proof.
  unfold TrimPrefix. destruct (HasPrefix s prefix).
  - apply skip_suffix.
  - exists []. reflexivity.
Qed.

Lemma TrimPrefix_id s prefix : HasPrefix s prefix = false -> TrimPrefix s prefix = s.
Proof. unfold TrimPrefix. intros ->. reflexivity. Qed.

Lemma TrimSpace_trimmed s : trimmed (list_ascii_of_string (TrimSpace s)).
Proof.
  unfold TrimSpace. rewrite list_ascii_of_string_of_list_ascii. apply trim_trimmed.
Qed.

Lemma TrimSpace_id s : trimmed (list_ascii_of_string s) -> TrimSpace s = s.
Proof.
  intros H. unfold TrimSpace. rewrite trimmed_id by exact H.
  apply string_of_list_ascii_of_string.
Qed.

End StringFacts.

(** ** The laws of the monad *)

Module MonadFacts.

Lemma emit_nil {A} (x : Trace * result A) : emit [] x = x.
Proof. destruct x. reflexivity. Qed.

Lemma emit_emit {A} (a b : Trace) (x : Trace * result A) :
  emit a (emit b x) = emit (a ++ b) x.
Proof. unfold emit. simpl. rewrite app_assoc. reflexivity. Qed.

Lemma emit_pair {A} (a d : Trace) (r : result A) : emit a (d, r) = (a ++ d, r).
Proof. reflexivity. Qed.

Lemma bind_ret {A B} (a : A) (k : A -> M B) past : bind (ret a) k past = k a past.
Proof.
  unfold bind, ret. rewrite app_nil_r. destruct (k a past). reflexivity.
Qed.

Lemma bind_fail {A B} (e : error) (k : A -> M B) past :
  bind (fail e) k past = ([], Err e).
Proof. reflexivity. Qed.

Lemma bind_bind {A B C} (m : M A) (f : A -> M B) (g : B -> M C) past :
  bind (bind m f) g past = bind m (fun x => bind (f x) g) past.
Proof.
  unfold bind. destruct (m past) as [d [a|e]]; [|reflexivity].
  destruct (f a (past ++ d)) as [d' [b|e]]; [|reflexivity].
  rewrite <- app_assoc. destruct (g b (past ++ d ++ d')) as [d'' r].
  rewrite app_assoc. reflexivity.
Qed.

Lemma bind_print {B} (l : Line) (k : unit -> M B) past :
  bind (print l) k past = emit [Stdout l] (k tt (past ++ [Stdout l])).
Proof.
  unfold bind, print, emit. destruct (k tt (past ++ [Stdout l])). reflexivity.
Qed.

Lemma bind_emit {A B} (m : M A) (k : A -> M B) past evs a :
  m past = (evs, Ok a) -> bind m k past = emit evs (k a (past ++ evs)).
Proof.
  intros H. unfold bind, emit. rewrite H. destruct (k a (past ++ evs)). reflexivity.
Qed.

Section World.

Variable W : World.

Lemma bind_stat {B} path (k : bool -> M B) past :
  bind (stat_IsNotExist W path) k past
  = emit [Stat path] (k (os_IsNotExist W past path) (past ++ [Stat path])).
Proof. apply bind_emit. reflexivity. Qed.

Lemma bind_commandExists {B} cmd (k : bool -> M B) past :
  bind (commandExists W cmd) k past
  = emit [LookPath cmd] (k (exec_LookPath W past cmd) (past ++ [LookPath cmd])).
Proof. apply bind_emit. reflexivity. Qed.

Lemma bind_run {B} dir name args (k : string * option string -> M B) past :
  bind (run W dir name args) k past
  = emit [Exec dir name args]
         (k (cmd_Run W past dir name args) (past ++ [Exec dir name args])).
Proof. apply bind_emit. reflexivity. Qed.

Lemma runGitCmd_eq repoPath args past :
  runGitCmd W repoPath args past
  = ([Exec repoPath "git" args],
     Ok (TrimSpace (fst (cmd_Run W past repoPath "git" args)),
         snd (cmd_Run W past repoPath "git" args))).
Proof.
  unfold runGitCmd. rewrite bind_run.
  destruct (cmd_Run W past repoPath "git" args) as [out err]. reflexivity.
Qed.

Lemma bind_runGitCmd {B} repoPath args (k : string * option string -> M B) past :
  bind (runGitCmd W repoPath args) k past
  = emit [Exec repoPath "git" args]
         (k (TrimSpace (fst (cmd_Run W past repoPath "git" args)),
             snd (cmd_Run W past repoPath "git" args))
            (past ++ [Exec repoPath "git" args])).
Proof. apply bind_emit, runGitCmd_eq. Qed.

(** [grepRepo] looks for [rg], runs the search and never returns an
    error. *)
Lemma grepRepo_eq repoPath pattern includeGlobs excludeGlobs past :
  let cmd := searchCmd (exec_LookPath W past "rg") pattern includeGlobs excludeGlobs in
  grepRepo W repoPath pattern includeGlobs excludeGlobs past
  = ([LookPath "rg"; Exec repoPath (fst cmd) (snd cmd)],
     Ok (matchesOf (cmd_Run W (past ++ [LookPath "rg"]) repoPath (fst cmd) (snd cmd)),
         None)).
Proof.
  intros cmd. unfold grepRepo. rewrite bind_commandExists. fold cmd.
  rewrite bind_run. unfold matchesOf.
  destruct (cmd_Run W (past ++ [LookPath "rg"]) repoPath (fst cmd) (snd cmd))
    as [out [e|]]; simpl fst; simpl snd; [destruct (String.length out =? 0)|];
    reflexivity.
Qed.

End World.

Lemma printMatch_eq branch m past :
  printMatch branch m past
  = (if wellFormed m then [Stdout (matchLine branch m)] else [], Ok tt).
Proof.
  unfold printMatch, wellFormed. rewrite StringFacts.SplitN_length.
  destruct (2 <=? Count colon m) eqn:E.
  - apply Nat.leb_le in E.
    replace (Nat.min 3 (Count colon m + 1) <? 3) with false
      by (symmetry; apply Nat.ltb_ge; lia).
    reflexivity.
  - apply Nat.leb_gt in E.
    replace (Nat.min 3 (Count colon m + 1) <? 3) with true
      by (symmetry; apply Nat.ltb_lt; lia).
    reflexivity.
Qed.

Lemma forEach_printMatch branch matches past :
  forEach matches (printMatch branch) past
  = (map (fun m => Stdout (matchLine branch m)) (filter wellFormed matches), Ok tt).
Proof.
  revert past. induction matches as [|m ms IH]; intros past; [reflexivity|].
  simpl forEach. rewrite (bind_emit _ _ _ _ _ (printMatch_eq branch m past)).
  rewrite IH. simpl filter. destruct (wellFormed m); reflexivity.
Qed.

(** The count first, then a line for every well-formed line. *)
Lemma report_eq branch matches past :
  report branch matches past
  = (Stdout (countLine branch matches)
       :: map (fun m => Stdout (matchLine branch m)) (filter wellFormed matches),
     Ok tt).
Proof.
  unfold report, countLine.
  destruct (0 <? List.length matches); rewrite bind_print, forEach_printMatch;
    reflexivity.
Qed.

End MonadFacts.

(** ** The runs of the action *)

Module RunFacts.

Import MonadFacts.

Lemma searchCmd_name hasRg pattern includeGlobs excludeGlobs :
  fst (searchCmd hasRg pattern includeGlobs excludeGlobs) = "rg"
  \/ fst (searchCmd hasRg pattern includeGlobs excludeGlobs) = "grep".
Proof. destruct hasRg; simpl; auto. Qed.

Section World.

Variable W : World.

(** One turn of the loop. *)
Lemma searchBranch_eq repoPath regex includeGlobs excludeGlobs branch past :
  let b := TrimSpace branch in
  let before := past ++ [Stdout (LSearchingBranch b);
                         Exec repoPath "git" ["checkout"; b];
                         Stdout (LPulling b);
                         Exec repoPath "git" ["pull"; "origin"; b]] in
  let cmd := searchCmd (exec_LookPath W before "rg") regex includeGlobs excludeGlobs in
  let matches :=
    matchesOf (cmd_Run W (before ++ [LookPath "rg"]) repoPath (fst cmd) (snd cmd)) in
  searchBranch W repoPath regex includeGlobs excludeGlobs branch past
  = if String.eqb b "" then ([], Ok tt)
    else ([Stdout (LSearchingBranch b);
           Exec repoPath "git" ["checkout"; b];
           Stdout (LPulling b);
           Exec repoPath "git" ["pull"; "origin"; b];
           LookPath "rg";
           Exec repoPath (fst cmd) (snd cmd);
           Stdout (countLine b matches)]
            ++ map (fun m => Stdout (matchLine b m)) (filter wellFormed matches),
          Ok tt).
Proof.
  intros b before cmd matches. unfold searchBranch. fold b.
  destruct (String.eqb b ""); [reflexivity|].
  rewrite bind_print, bind_runGitCmd, bind_print, bind_runGitCmd.
  repeat rewrite <- app_assoc. simpl app. fold before.
  rewrite (bind_emit _ _ _ _ _ (grepRepo_eq W repoPath regex includeGlobs excludeGlobs before)).
  fold cmd. fold matches. rewrite report_eq.
  unfold emit. reflexivity.
Qed.

(** The loop never fails, and its events are those of [Visits]. *)
Lemma forEach_searchBranch repoPath regex includeGlobs excludeGlobs branches :
  forall past, exists loop,
    forEach branches (searchBranch W repoPath regex includeGlobs excludeGlobs) past
    = (loop, Ok tt)
    /\ Visits repoPath branches loop.
Proof.
  induction branches as [|b bs IH]; intros past.
  - exists []. split; [reflexivity | constructor].
  - simpl forEach.
    pose proof (searchBranch_eq repoPath regex includeGlobs excludeGlobs b past) as E.
    cbv zeta in E.
    destruct (String.eqb (TrimSpace b) "") eqn:Eb.
    + apply String.eqb_eq in Eb.
      rewrite (bind_emit _ _ _ _ _ E). rewrite app_nil_r, emit_nil.
      destruct (IH past) as (loop & Hl & Hv).
      exists loop. split; [exact Hl | now apply Visits_skip].
    + apply String.eqb_neq in Eb.
      rewrite (bind_emit _ _ _ _ _ E).
      match goal with
      | |- context [forEach bs _ ?p] => destruct (IH p) as (loop & Hl & Hv)
      end.
      rewrite Hl. rewrite emit_pair.
      eexists. split.
      * rewrite <- app_assoc. reflexivity.
      * apply Visits_visit; [exact Eb | apply searchCmd_name | exact Hv].
Qed.

Lemma listBranches_explicit repoPath branchesArg past :
  branchesArg <> "" ->
  listBranches W repoPath branchesArg past = ([], Ok (Split branchesArg comma)).
Proof.
  intros H. unfold listBranches. apply String.eqb_neq in H. rewrite H. reflexivity.
Qed.

Lemma bind_Err {A B} (m : M A) (k : A -> M B) past evs e :
  m past = (evs, Err e) -> bind m k past = (evs, Err e).
Proof. intros H. unfold bind. rewrite H. reflexivity. Qed.

(** Lines 125-128: the warning about globs without [rg]. *)
Lemma warning_eq {B} (includeGlobs excludeGlobs : list string) (k : unit -> M B) past :
  exists warning,
    (warning = [] \/ warning = [LookPath "rg"]
     \/ warning = [LookPath "rg"; Stdout LWarnNoRipgrep])
    /\ bind (if (0 <? List.length includeGlobs) || (0 <? List.length excludeGlobs)
             then hasRg <- commandExists W "rg" ;;
                  if negb hasRg then print LWarnNoRipgrep else ret tt
             else ret tt) k past
       = emit warning (k tt (past ++ warning)).
Proof.
  destruct ((0 <? List.length includeGlobs) || (0 <? List.length excludeGlobs)).
  - rewrite bind_bind, bind_commandExists.
    destruct (exec_LookPath W past "rg"); cbn [negb].
    + exists [LookPath "rg"]. rewrite bind_ret. auto.
    + exists [LookPath "rg"; Stdout LWarnNoRipgrep].
      rewrite bind_print, emit_emit, <- app_assoc. auto.
  - exists []. rewrite bind_ret, app_nil_r, emit_nil. auto.
Qed.

(** Lines 138-152: the list is given, or asked from git, which may fail. *)
Lemma listBranches_cases c repoPath past :
  (exists listing branches,
      Listing W c repoPath past listing branches
      /\ listBranches W repoPath (c_branches c) past = (listing, Ok branches))
  \/ (exists out e,
         c_branches c = ""
         /\ cmd_Run W past repoPath "git" branchR = (out, Some e)
         /\ listBranches W repoPath (c_branches c) past
            = ([Exec repoPath "git" branchR], Err (BranchListFailed e))).
Proof.
  unfold listBranches.
  destruct (String.eqb (c_branches c) "") eqn:E; cbn [negb].
  - apply String.eqb_eq in E. rewrite bind_runGitCmd. fold branchR.
    destruct (cmd_Run W past repoPath "git" branchR) as [out [e|]] eqn:Ecmd;
      simpl fst; simpl snd.
    + right. exists out, e. auto.
    + left. exists [Exec repoPath "git" branchR], (remoteBranches (TrimSpace out)).
      split; [now apply Listing_remote | reflexivity].
  - apply String.eqb_neq in E. left.
    exists [], (Split (c_branches c) comma).
    split; [now apply Listing_explicit | reflexivity].
Qed.

(** Every run of the action is one of [Outcome]. *)
Lemma Action_Outcome c :
  exists done r, Action W c [] = (done, r) /\ Outcome W c done r.
Proof.
  unfold Action.
  destruct (filepath_Abs W (c_repo c)) as [repoPath|e] eqn:Eabs.
  2:{ do 2 eexists. split; [reflexivity|]. apply Outcome_InvalidPath. exact Eabs. }
  rewrite bind_stat. simpl app.
  destruct (os_IsNotExist W [] (filepath_Join repoPath ".git")) eqn:Estat.
  { do 2 eexists. split; [reflexivity|]. apply Outcome_NotAGitRepo; assumption. }
  rewrite bind_runGitCmd. simpl app. fold revParse.
  destruct (cmd_Run W [Stat (filepath_Join repoPath ".git")] repoPath "git" revParse)
    as [out [e|]] eqn:Ehead; cbn [fst snd]; cbv beta iota.
  { do 2 eexists. split; [reflexivity|].
    eapply Outcome_GitCommandFailed; eassumption. }
  rewrite !bind_print. simpl app.
  match goal with
  | |- context [bind (if _ then _ else ret tt) ?k ?p] =>
      destruct (warning_eq (c_include_glob c) (c_exclude_glob c) k p)
        as (warning & Hw & ->)
  end.
  rewrite bind_print; cbv beta. rewrite bind_runGitCmd; cbv beta.
  rewrite bind_print; cbv beta. rewrite bind_runGitCmd; cbv beta.
  fold stashPush. fold fetchAll.
  rewrite !emit_emit. repeat rewrite <- app_assoc. simpl app.
  match goal with |- context [emit ?p _] => set (pre := p) end.
  assert (Hpre : Preamble W c repoPath (TrimSpace out) pre)
    by exact (Preamble_intro W c repoPath _ out warning Eabs Estat Ehead eq_refl Hw).
  destruct (listBranches_cases c repoPath pre)
    as [(listing & branches & Hl & El) | (o & e & Hb & Hc & El)].
  - rewrite (bind_emit _ _ _ _ _ El), emit_emit.
    destruct (regexp_Compile W (c_regex c)) as [e|] eqn:Er.
    + exists ((pre ++ listing) ++ []), (Err (InvalidRegex e)).
      split; [reflexivity|]. rewrite app_nil_r.
      eapply Outcome_InvalidRegex; eassumption.
    + rewrite bind_print; cbv beta.
      match goal with
      | |- context [bind (forEach ?bs ?f) _ ?p] =>
          destruct (forEach_searchBranch repoPath (c_regex c) (c_include_glob c)
                      (c_exclude_glob c) bs p) as (loop & Eloop & Hv)
      end.
      rewrite (bind_emit _ _ _ _ _ Eloop).
      rewrite bind_print; cbv beta. rewrite bind_print; cbv beta.
      rewrite bind_runGitCmd; cbv beta. rewrite bind_print; cbv beta.
      rewrite bind_runGitCmd; cbv beta. rewrite bind_print; cbv beta.
      fold stashPop. unfold ret. rewrite !emit_emit, emit_pair, app_nil_r.
      do 2 eexists. split; [reflexivity|].
      repeat rewrite <- app_assoc.
      eapply Outcome_Completed; eassumption.
  - rewrite (bind_Err _ _ _ _ _ El), emit_pair.
    do 2 eexists. split; [reflexivity|].
    eapply Outcome_BranchListFailed; eassumption.
Qed.

End World.

(** *** What the observations see of a run *)

Lemma gitCalls_app a b : gitCalls (a ++ b) = gitCalls a ++ gitCalls b.
Proof. apply flat_map_app. Qed.

Lemma subprocesses_app a b : subprocesses (a ++ b) = subprocesses a ++ subprocesses b.
Proof. apply flat_map_app. Qed.

Lemma stdout_app a b : stdout (a ++ b) = stdout a ++ stdout b.
Proof. apply flat_map_app. Qed.

Lemma stderr_app a b : stderr (a ++ b) = stderr a ++ stderr b.
Proof. apply flat_map_app. Qed.

Lemma visited_app a b : visited (a ++ b) = visited a ++ visited b.
Proof. unfold visited. rewrite gitCalls_app. apply flat_map_app. Qed.

Lemma matchLines_app a b : matchLines (a ++ b) = matchLines a ++ matchLines b.
Proof. unfold matchLines. rewrite stdout_app. apply filter_app. Qed.

Section Printed.

Variable f : string -> Line.

Lemma gitCalls_printed ms : gitCalls (map (fun m => Stdout (f m)) ms) = [].
Proof. induction ms; simpl; auto. Qed.

Lemma subprocesses_printed ms : subprocesses (map (fun m => Stdout (f m)) ms) = [].
Proof. induction ms; simpl; auto. Qed.

Lemma stderr_printed ms : stderr (map (fun m => Stdout (f m)) ms) = [].
Proof. induction ms; simpl; auto. Qed.

Lemma visited_printed ms : visited (map (fun m => Stdout (f m)) ms) = [].
Proof. unfold visited. rewrite gitCalls_printed. reflexivity. Qed.

Lemma stdout_printed ms : stdout (map (fun m => Stdout (f m)) ms) = map f ms.
Proof. induction ms; simpl; [|f_equal]; auto. Qed.

End Printed.

Lemma names_skip b bs : TrimSpace b = "" -> names (b :: bs) = names bs.
Proof. unfold names. simpl. intros ->. reflexivity. Qed.

Lemma names_visit b bs :
  TrimSpace b <> "" -> names (b :: bs) = TrimSpace b :: names bs.
Proof.
  unfold names, nonEmpty. simpl. intros H. apply String.eqb_neq in H.
  rewrite H. reflexivity.
Qed.

(** The loop checks out and pulls each name in turn, and calls git for
    nothing else. *)
Lemma Visits_gitCalls repoPath branches loop :
  Visits repoPath branches loop -> gitCalls loop = flat_map visit (names branches).
Proof.
  induction 1 as [|b bs t Hb _ IH|b bs name args matches t Hb Hn _ IH].
  - reflexivity.
  - rewrite names_skip by exact Hb. exact IH.
  - rewrite names_visit by exact Hb.
    rewrite !gitCalls_app, gitCalls_printed, IH.
    destruct Hn as [-> | ->]; reflexivity.
Qed.

Lemma Visits_visited repoPath branches loop :
  Visits repoPath branches loop -> visited loop = names branches.
Proof.
  induction 1 as [|b bs t Hb _ IH|b bs name args matches t Hb Hn _ IH].
  - reflexivity.
  - rewrite names_skip by exact Hb. exact IH.
  - rewrite names_visit by exact Hb.
    rewrite !visited_app, visited_printed, IH.
    destruct Hn as [-> | ->]; reflexivity.
Qed.

Lemma Visits_stderr repoPath branches loop :
  Visits repoPath branches loop -> stderr loop = [].
Proof.
  induction 1 as [|b bs t Hb _ IH|b bs name args matches t Hb Hn _ IH];
    [reflexivity | exact IH |].
  rewrite !stderr_app, stderr_printed, IH. reflexivity.
Qed.

Lemma Visits_stdout repoPath branches loop :
  Visits repoPath branches loop -> forallb loopLine (stdout loop) = true.
Proof.
  induction 1 as [|b bs t Hb _ IH|b bs name args matches t Hb Hn _ IH];
    [reflexivity | exact IH |].
  rewrite !stdout_app, stdout_printed, !forallb_app, IH.
  rewrite andb_true_r. apply andb_true_iff. split.
  - simpl. unfold countLine. destruct (0 <? List.length matches); reflexivity.
  - apply forallb_forall. intros l Hl. apply in_map_iff in Hl.
    destruct Hl as (m & <- & _). reflexivity.
Qed.

(** The loop starts git, [rg] and [grep], and nothing else. *)
Lemma Visits_subprocesses repoPath branches loop :
  Visits repoPath branches loop ->
  forall name args, In (name, args) (subprocesses loop) ->
                    name = "git" \/ name = "rg" \/ name = "grep".
Proof.
  induction 1 as [|b bs t Hb _ IH|b bs name args matches t Hb Hn _ IH];
    intros n a Hin.
  - destruct Hin.
  - exact (IH n a Hin).
  - rewrite !subprocesses_app, subprocesses_printed in Hin.
    simpl in Hin.
    destruct Hin as [E|[E|[E|Hin]]]; try (injection E as <- _; tauto).
    exact (IH n a Hin).
Qed.


Lemma Preamble_gitCalls W c repoPath currentBranch pre :
  Preamble W c repoPath currentBranch pre ->
  gitCalls pre = [revParse; stashPush; fetchAll].
Proof.
  intros [out warning _ _ _ _ Hw].
  destruct Hw as [-> | [-> | ->]]; reflexivity.
Qed.

Lemma Preamble_stdout W c repoPath currentBranch pre :
  Preamble W c repoPath currentBranch pre ->
  ~ In LCompleted (stdout pre) /\ stderr pre = [].
Proof.
  intros [out warning _ _ _ _ Hw].
  destruct Hw as [-> | [-> | ->]]; simpl; split; try reflexivity;
    intuition discriminate.
Qed.

Lemma Preamble_subprocesses W c repoPath currentBranch pre :
  Preamble W c repoPath currentBranch pre ->
  subprocesses pre = [("git", revParse); ("git", stashPush); ("git", fetchAll)].
Proof.
  intros [out warning _ _ _ _ Hw].
  destruct Hw as [-> | [-> | ->]]; reflexivity.
Qed.

Lemma Listing_cases W c repoPath past listing branches :
  Listing W c repoPath past listing branches ->
  (c_branches c <> "" /\ listing = [] /\ branches = Split (c_branches c) comma)
  \/ (c_branches c = "" /\ listing = [Exec repoPath "git" branchR]
      /\ exists out, branches = remoteBranches (TrimSpace out)).
Proof.
  intros [H | out H Hc]; [left | right]; eauto.
Qed.

End RunFacts.

(** ** The properties of the specification *)

Import MonadFacts RunFacts.

Lemma In_visit x ns :
  In x (flat_map visit ns) ->
  exists b, In b ns /\ (x = ["checkout"; b] \/ x = ["pull"; "origin"; b]).
Proof.
  intros H. apply in_flat_map in H. destruct H as (b & Hb & Hx).
  exists b. split; [exact Hb|]. simpl in Hx. intuition auto.
Qed.

Lemma In_names b branches :
  In b (names branches) <->
  b <> "" /\ exists raw, In raw branches /\ b = TrimSpace raw.
Proof.
  unfold names, nonEmpty. rewrite filter_In, in_map_iff, negb_true_iff.
  rewrite String.eqb_neq. split.
  - intros [(raw & <- & Hin) Hne]. eauto.
  - intros [Hne (raw & Hin & ->)]. eauto.
Qed.

Lemma In_remoteBranches b branchList :
  In b (remoteBranches branchList) ->
  exists raw, In raw (Split branchList newline)
              /\ TrimSpace raw <> ""
              /\ Contains (TrimSpace raw) "->" = false
              /\ b = normalize raw.
Proof.
  unfold remoteBranches. intros H. apply in_flat_map in H.
  destruct H as (raw & Hin & Hb). exists raw.
  destruct (String.eqb (TrimSpace raw) "") eqn:E; simpl in Hb; [tauto|].
  destruct (Contains (TrimSpace raw) "->") eqn:Ec; simpl in Hb; [tauto|].
  destruct Hb as [<- | []]. apply String.eqb_neq in E. auto.
Qed.

(** The git commands of a run that ends well. *)
Lemma Completed_gitCalls W c repoPath currentBranch pre listing branches loop :
  Preamble W c repoPath currentBranch pre ->
  Visits repoPath branches loop ->
  gitCalls (pre ++ listing
                ++ [Stdout (LSearchingAcross (List.length branches))]
                ++ loop
                ++ [Stdout LBlank;
                    Stdout (LRestoringBranch currentBranch);
                    Exec repoPath "git" ["checkout"; currentBranch];
                    Stdout LRestoringStash;
                    Exec repoPath "git" stashPop;
                    Stdout LCompleted])
  = [revParse; stashPush; fetchAll]
      ++ gitCalls listing
      ++ flat_map visit (names branches)
      ++ [["checkout"; currentBranch]; stashPop].
Proof.
  intros Hpre Hv.
  rewrite !gitCalls_app, (Preamble_gitCalls _ _ _ _ _ Hpre),
    (Visits_gitCalls _ _ _ Hv).
  reflexivity.
Qed.

Lemma Completed_visited W c repoPath currentBranch pre listing branches loop :
  Preamble W c repoPath currentBranch pre ->
  Listing W c repoPath pre listing branches ->
  Visits repoPath branches loop ->
  visited (pre ++ listing
                ++ [Stdout (LSearchingAcross (List.length branches))]
                ++ loop
                ++ [Stdout LBlank;
                    Stdout (LRestoringBranch currentBranch);
                    Exec repoPath "git" ["checkout"; currentBranch];
                    Stdout LRestoringStash;
                    Exec repoPath "git" stashPop;
                    Stdout LCompleted])
  = names branches.
Proof.
  intros Hpre Hl Hv.
  rewrite !visited_app, (Visits_visited _ _ _ Hv).
  unfold visited at 1. rewrite (Preamble_gitCalls _ _ _ _ _ Hpre).
  destruct Hl; simpl; rewrite app_nil_r; reflexivity.
Qed.

(** A run that fails has gone through the checks at most, the stash, the
    fetch and the listing of the remote branches. *)
Lemma Failed_gitCalls W c done e :
  Outcome W c done (Err e) ->
  match e with
  | InvalidPath _ | NotAGitRepo _ => gitCalls done = []
  | GitCommandFailed _ => gitCalls done = [revParse]
  | BranchListFailed _ => gitCalls done = [revParse; stashPush; fetchAll; branchR]
  | InvalidRegex _ =>
      gitCalls done = [revParse; stashPush; fetchAll]
                        ++ (if String.eqb (c_branches c) "" then [branchR] else [])
  | SearchFailed _ _ => False
  end.
Proof.
  inversion 1; subst; try reflexivity.
  - rewrite gitCalls_app,
      (Preamble_gitCalls _ _ _ _ _ ltac:(eassumption)). reflexivity.
  - rewrite gitCalls_app,
      (Preamble_gitCalls _ _ _ _ _ ltac:(eassumption)).
    match goal with H : Listing _ _ _ _ _ _ |- _ => destruct H as [Hb | out Hb _] end.
    + apply String.eqb_neq in Hb. rewrite Hb. reflexivity.
    + rewrite Hb. reflexivity.
Qed.

Lemma Failed_stdout W c done e :
  Outcome W c done (Err e) -> ~ In LCompleted (stdout done) /\ stderr done = [].
Proof.
  inversion 1; subst; try (simpl; split; [tauto | reflexivity]).
  - rewrite stdout_app, stderr_app.
    destruct (Preamble_stdout _ _ _ _ _ ltac:(eassumption)) as [Hn ->].
    split; [|reflexivity]. rewrite in_app_iff. simpl. tauto.
  - rewrite stdout_app, stderr_app.
    destruct (Preamble_stdout _ _ _ _ _ ltac:(eassumption)) as [Hn ->].
    match goal with H : Listing _ _ _ _ _ _ |- _ => destruct H end;
      (split; [|reflexivity]); rewrite in_app_iff; simpl; tauto.
Qed.

Lemma Completed_stdout W c done :
  Outcome W c done (Ok tt) -> stderr done = [].
Proof.
  inversion 1; subst.
  rewrite !stderr_app.
  destruct (Preamble_stdout _ _ _ _ _ ltac:(eassumption)) as [_ ->].
  rewrite (Visits_stderr _ _ _ ltac:(eassumption)).
  match goal with H : Listing _ _ _ _ _ _ |- _ => destruct H end; reflexivity.
Qed.

Lemma Failed_visited W c done e : Outcome W c done (Err e) -> visited done = [].
Proof.
  intros Ho. pose proof (Failed_gitCalls _ _ _ _ Ho) as Hg. unfold visited.
  destruct e; try contradiction; rewrite Hg; try reflexivity.
  destruct (String.eqb (c_branches c) ""); reflexivity.
Qed.

Lemma Failed_subprocesses W c done e :
  Outcome W c done (Err e) ->
  forall name args, In (name, args) (subprocesses done) -> name = "git".
Proof.
  intros Ho name args.
  inversion Ho; subst; simpl; try tauto.
  - intros [H|[]]. congruence.
  - rewrite subprocesses_app,
      (Preamble_subprocesses _ _ _ _ _ ltac:(eassumption)).
    simpl. intuition congruence.
  - rewrite subprocesses_app,
      (Preamble_subprocesses _ _ _ _ _ ltac:(eassumption)).
    match goal with H : Listing _ _ _ _ _ _ |- _ => destruct H end;
      simpl; intuition congruence.
Qed.

Lemma Failed_no_checkout W c done e :
  Outcome W c done (Err e) -> forall b, ~ In ["checkout"; b] (gitCalls done).
Proof.
  intros Ho b. pose proof (Failed_gitCalls _ _ _ _ Ho) as Hg.
  destruct e; try contradiction; rewrite Hg;
    try (destruct (String.eqb (c_branches c) ""));
    simpl; unfold stashPush, revParse, fetchAll, branchR; intuition congruence.
Qed.

(** *** The claims *)

(** C1, as the specification has it, fails: with the regex [(], which
    does not compile, the stash push and the fetch are run before the
    run fails with the invalid-regex error. *)
Lemma C1_counterexample :
  regexp_Compile Demo.world "(" <> None
  /\ snd (Action Demo.world (Demo.request "/repo" "(" "main") [])
     = Err (InvalidRegex "error parsing regexp: missing closing ): `(`")
  /\ In stashPush
        (gitCalls (fst (Action Demo.world (Demo.request "/repo" "(" "main") [])))
  /\ In fetchAll
        (gitCalls (fst (Action Demo.world (Demo.request "/repo" "(" "main") []))).
Proof.
  split; [discriminate|]. split; [reflexivity|].
  split; simpl; unfold stashPush, fetchAll; tauto.
Qed.

(** C1, amended.  A run given a regex that does not compile fails, and
    it fails before the loop: no branch is checked out or pulled and the
    search tool is never started.  When the checks before it pass (the
    path resolves, [.git] exists, the current branch is read, and the
    branches are given or their listing does not fail), the error is the
    invalid-regex error; whenever it is, the stash push and the fetch
    have been run before, and the listing of the remote branches too
    when no branch was given. *)
Theorem C1_invalid_regex (W : World) (c : Context) (e : string) :
  regexp_Compile W (c_regex c) = Some e ->
  exists done err,
    Action W c [] = (done, Err err)
    /\ visited done = []
    /\ (forall b, ~ In ["checkout"; b] (gitCalls done))
    /\ (forall name args, In (name, args) (subprocesses done) -> name = "git")
    /\ (err = InvalidRegex e ->
        gitCalls done
        = [revParse; stashPush; fetchAll]
            ++ (if String.eqb (c_branches c) "" then [branchR] else []))
    /\ (forall repoPath out,
           filepath_Abs W (c_repo c) = inl repoPath ->
           os_IsNotExist W [] (filepath_Join repoPath ".git") = false ->
           cmd_Run W [Stat (filepath_Join repoPath ".git")] repoPath "git" revParse
             = (out, None) ->
           c_branches c <> ""
           \/ (forall past, snd (cmd_Run W past repoPath "git" branchR) = None) ->
           err = InvalidRegex e).
Proof.
  intros Hre.
  destruct (Action_Outcome W c) as (done & r & E & Ho).
  destruct r as [[]|err].
  { inversion Ho; congruence. }
  exists done, err. split; [exact E|].
  split; [exact (Failed_visited _ _ _ _ Ho)|].
  split; [exact (Failed_no_checkout _ _ _ _ Ho)|].
  split; [exact (Failed_subprocesses _ _ _ _ Ho)|].
  split.
  - intros ->. exact (Failed_gitCalls _ _ _ _ Ho).
  - intros repoPath out Habs Hstat Hhead Hlist.
    inversion Ho; subst; try congruence.
    match goal with H : Preamble _ _ _ _ _ |- _ => destruct H as [o w Ha _ _ _ _] end.
    assert (repoPath0 = repoPath) as -> by congruence.
    destruct Hlist as [Hl | Hl]; [congruence|].
    match goal with H : cmd_Run _ ?p _ _ branchR = _ |- _ =>
        specialize (Hl p); rewrite H in Hl; discriminate Hl
      end.
Qed.

Lemma C1_invalid_regex_witness :
  exists done,
    Action Demo.world (Demo.request "/repo" "(" "") []
    = (done, Err (InvalidRegex "error parsing regexp: missing closing ): `(`"))
    /\ gitCalls done = [revParse; stashPush; fetchAll; branchR]
    /\ visited done = [].
Proof.
  destruct (C1_invalid_regex Demo.world (Demo.request "/repo" "(" "")
              "error parsing regexp: missing closing ): `(`" eq_refl)
    as (done & err & E & Hv & _ & _ & Hg & Herr).
  assert (He : err = InvalidRegex "error parsing regexp: missing closing ): `(`").
  { apply (Herr "/repo" ("main" ++ Demo.lf)%string); try reflexivity.
    right. intros past. reflexivity. }
  subst err. exists done. split; [exact E|]. split; [exact (Hg eq_refl) | exact Hv].
Defined.

(** C2, on the code.  The regex TODO compiles, nothing matches, and the
    search tool fails with a message on its output (status 2, a file it
    cannot read): [grepRepo] returns the message as a line and no error,
    the run prints "Found 1 matches" and the message as a match line,
    goes on, restores the branch and the stash and exits with code 0.  No
    run of the action ever returns the search-failed error. *)
Theorem C2_search_failure_not_reported :
  regexp_Compile Demo.unreadable "TODO" = None
  /\ cmd_Run Demo.unreadable [] "/repo" "rg" ["-n"; "-uu"; "--pcre2"; "TODO"]
     = (("rg: ./secret.key: Permission denied (os error 13)" ++ Demo.lf)%string,
        Some "exit status 2")
  /\ snd (grepRepo Demo.unreadable "/repo" "TODO" [] [] [])
     = Ok (["rg: ./secret.key: Permission denied (os error 13)"], None)
  /\ snd (main Demo.unreadable (Invoke (Demo.request "/repo" "TODO" "main"))) = 0
  /\ stdout (fst (main Demo.unreadable (Invoke (Demo.request "/repo" "TODO" "main"))))
     = [LRepository "/repo"; LSearchPattern "TODO"; LCurrentBranch "main"; LBlank;
        LStashing; LFetching; LSearchingAcross 1;
        LSearchingBranch "main"; LPulling "main"; LFound 1 "main";
        LMatch "main" "rg" " ./secret.key" " Permission denied (os error 13)";
        LBlank; LRestoringBranch "main"; LRestoringStash; LCompleted]
  /\ stderr (fst (main Demo.unreadable (Invoke (Demo.request "/repo" "TODO" "main")))) = []
  /\ (forall W c done branch err,
         Action W c [] <> (done, Err (SearchFailed branch err))).
Proof.
  repeat split; try reflexivity.
  intros W c done branch err E.
  destruct (Action_Outcome W c) as (done' & r & E' & Ho).
  rewrite E in E'. injection E' as <- <-.
  exact (Failed_gitCalls _ _ _ _ Ho).
Qed.

(** C5, as the specification has it, fails: normalizing a name that is
    the result of a normalization can change it once more. *)
Lemma C5_counterexample :
  normalize "origin/origin/main" = "origin/main"
  /\ normalize (normalize "origin/origin/main") = "main"
  /\ ~ (forall b, normalize (normalize b) = normalize b).
Proof.
  split; [reflexivity|]. split; [reflexivity|].
  intros H. specialize (H "origin/origin/main"). discriminate H.
Qed.

(** C5, amended.  A normalized name that starts neither with white space
    nor with [origin/] is left as it is by another normalization. *)
Theorem C5_normalize_fixed (b : string) :
  HasPrefix (normalize b) "origin/" = false ->
  beginsWithSpace (list_ascii_of_string (normalize b)) = false ->
  normalize (normalize b) = normalize b.
Proof.
  intros Hp Hs.
  assert (Ht : TrimSpace (normalize b) = normalize b).
  { apply StringFacts.TrimSpace_id. split; [exact Hs|].
    destruct (StringFacts.TrimPrefix_suffix (TrimSpace b) "origin/") as [p Hpre].
    fold (normalize b) in Hpre.
    apply (StringFacts.ends_suffix p). rewrite <- Hpre.
    exact (proj2 (StringFacts.TrimSpace_trimmed b)). }
  unfold normalize at 1. rewrite Ht. apply StringFacts.TrimPrefix_id. exact Hp.
Qed.

Lemma C5_normalize_fixed_witness :
  normalize (normalize "  origin/feature-x ") = normalize "  origin/feature-x ".
Proof.
  apply (C5_normalize_fixed "  origin/feature-x "); reflexivity.
Defined.

(** C6.  When the repository path resolves to a directory in which
    [.git] does not exist, the action returns the not-a-repo error, the
    program prints it and exits with code 1, and the only thing it has
    done is the stat of [.git]: no subprocess is started, git or other. *)
Theorem C6_not_a_git_repo (W : World) (c : Context) (repoPath : string) :
  filepath_Abs W (c_repo c) = inl repoPath ->
  os_IsNotExist W [] (filepath_Join repoPath ".git") = true ->
  Action W c [] = ([Stat (filepath_Join repoPath ".git")], Err (NotAGitRepo repoPath))
  /\ main W (Invoke c)
     = ([Stat (filepath_Join repoPath ".git");
         Stderr ("Error: not a git repository: " ++ repoPath ++ String newline "")%string],
        1)
  /\ gitCalls (fst (main W (Invoke c))) = []
  /\ subprocesses (fst (main W (Invoke c))) = [].
Proof.
  intros Habs Hstat.
  assert (E : Action W c []
              = ([Stat (filepath_Join repoPath ".git")], Err (NotAGitRepo repoPath))).
  { unfold Action. rewrite Habs, bind_stat. simpl app. rewrite Hstat. reflexivity. }
  assert (Em : main W (Invoke c)
               = ([Stat (filepath_Join repoPath ".git");
                   Stderr ("Error: not a git repository: " ++ repoPath
                             ++ String newline "")%string], 1)).
  { unfold main. rewrite E. reflexivity. }
  rewrite Em. repeat split; try reflexivity; exact E.
Qed.

Lemma C6_not_a_git_repo_witness :
  Action Demo.world (Demo.request "/tmp" "TODO" "") []
  = ([Stat "/tmp/.git"], Err (NotAGitRepo "/tmp"))
  /\ subprocesses (fst (main Demo.world (Invoke (Demo.request "/tmp" "TODO" "")))) = [].
Proof.
  destruct (C6_not_a_git_repo Demo.world (Demo.request "/tmp" "TODO" "") "/tmp"
              eq_refl eq_refl) as (H1 & _ & _ & H4).
  split; [exact H1 | exact H4].
Defined.

(** C7.  Every run ends in exactly one of two ways: with code 0 and
    nothing on standard error, or with a non-zero code and a single line
    [Error: <message>] on standard error; and a run that ends with a
    non-zero code has not printed "Search completed!". *)
Theorem C7_success_or_fatal (W : World) (a : AppRun) :
  (successExit (main W a) \/ fatalExit (main W a))
  /\ ~ (successExit (main W a) /\ fatalExit (main W a))
  /\ (snd (main W a) <> 0 -> ~ In LCompleted (stdout (fst (main W a)))).
Proof.
  split; [|split].
  - destruct a as [[err|]|c]; simpl.
    + right. split; [discriminate|]. exists err, []. split; reflexivity.
    + left. split; reflexivity.
    + destruct (Action_Outcome W c) as (done & r & E & Ho). rewrite E.
      destruct r as [[]|e].
      * left. split; [reflexivity|]. exact (Completed_stdout _ _ _ Ho).
      * right. split; [discriminate|]. exists (Error e), done.
        split; [reflexivity|]. exact (proj2 (Failed_stdout _ _ _ _ Ho)).
  - intros [[H0 _] [H1 _]]. contradiction.
  - destruct a as [[err|]|c]; simpl.
    + intros _ [].
    + intros H. contradiction.
    + destruct (Action_Outcome W c) as (done & r & E & Ho). rewrite E.
      destruct r as [[]|e]; simpl; [intros H; contradiction|].
      intros _. rewrite stdout_app, in_app_iff. simpl.
      pose proof (proj1 (Failed_stdout _ _ _ _ Ho)). tauto.
Qed.

(** C8.  With an explicit [--branches] list, in a run that passes the
    checks (path, [.git], current branch, regex), the loop goes to the
    listed branches and to no other, in the listed order: the entries
    between the commas, trimmed, the empty ones skipped.  This holds in
    every world, whatever remote branches there are, and [git branch -r]
    is never run. *)
Theorem C8_explicit_branches (W : World) (c : Context) (repoPath out : string) :
  c_branches c <> "" ->
  filepath_Abs W (c_repo c) = inl repoPath ->
  os_IsNotExist W [] (filepath_Join repoPath ".git") = false ->
  cmd_Run W [Stat (filepath_Join repoPath ".git")] repoPath "git" revParse
    = (out, None) ->
  regexp_Compile W (c_regex c) = None ->
  exists done,
    Action W c [] = (done, Ok tt)
    /\ visited done = names (Split (c_branches c) comma)
    /\ gitCalls done
       = [revParse; stashPush; fetchAll]
           ++ flat_map visit (names (Split (c_branches c) comma))
           ++ [["checkout"; TrimSpace out]; stashPop]
    /\ ~ In branchR (gitCalls done).
Proof.
  intros Hb Habs Hstat Hhead Hre.
  destruct (Action_Outcome W c) as (done & r & E & Ho).
  inversion Ho; subst; try congruence;
    try (match goal with H : Preamble _ _ _ _ _ |- _ => destruct H end; congruence).
  match goal with H : Preamble _ _ _ _ _ |- _ => rename H into Hpre end.
  match goal with H : Listing _ _ _ _ _ _ |- _ => rename H into Hl end.
  match goal with H : Visits _ _ _ |- _ => rename H into Hv end.
  assert (repoPath0 = repoPath /\ currentBranch = TrimSpace out) as [-> ->].
  { destruct Hpre as [o w Ha Hs Hh Hc _]. split; [congruence|].
    assert (repoPath0 = repoPath) as -> by congruence. congruence. }
  destruct (Listing_cases _ _ _ _ _ _ Hl) as [(_ & -> & ->) | (Hnil & _)];
    [|congruence].
  eexists. split; [exact E|].
  assert (Hg := Completed_gitCalls _ _ _ _ _ [] _ _ Hpre Hv).
  split; [exact (Completed_visited _ _ _ _ _ _ _ _ Hpre Hl Hv)|].
  split; [exact Hg|].
  rewrite Hg. simpl. intros [H|[H|[H|H]]]; try discriminate.
  apply in_app_iff in H. destruct H as [H|H].
  - apply In_visit in H. destruct H as (b & _ & [H|H]); discriminate.
  - simpl in H. destruct H as [H|[H|[]]]; discriminate.
Qed.

Lemma C8_explicit_branches_witness :
  exists done,
    Action Demo.world (Demo.request "/repo" "TODO" "main,dev") [] = (done, Ok tt)
    /\ visited done = ["main"; "dev"]
    /\ ~ In branchR (gitCalls done).
Proof.
  destruct (C8_explicit_branches Demo.world (Demo.request "/repo" "TODO" "main,dev")
              "/repo" ("main" ++ Demo.lf)%string)
    as (done & E & Hv & _ & Hn);
    [discriminate | reflexivity | reflexivity | reflexivity | reflexivity |].
  exists done. split; [exact E|]. split; [exact Hv | exact Hn].
Defined.

(** C9.  When the search tool, run for a branch, exits without error and
    its captured output is empty or white space only, [grepRepo] returns
    the single empty line that splitting the trimmed output gives, so the
    turn of the loop prints "Found 1 matches" for the branch and no match
    line at all. *)
Theorem C9_blank_output_counts_one
        (W : World) (repoPath regex : string) (includeGlobs excludeGlobs : list string)
        (branch : string) (past : Trace) (out : string) :
  let b := TrimSpace branch in
  let before := past ++ [Stdout (LSearchingBranch b);
                         Exec repoPath "git" ["checkout"; b];
                         Stdout (LPulling b);
                         Exec repoPath "git" ["pull"; "origin"; b]] in
  let cmd := searchCmd (exec_LookPath W before "rg") regex includeGlobs excludeGlobs in
  b <> "" ->
  cmd_Run W (before ++ [LookPath "rg"]) repoPath (fst cmd) (snd cmd) = (out, None) ->
  TrimSpace out = "" ->
  grepRepo W repoPath regex includeGlobs excludeGlobs before
  = ([LookPath "rg"; Exec repoPath (fst cmd) (snd cmd)], Ok ([""], None))
  /\ exists done,
      searchBranch W repoPath regex includeGlobs excludeGlobs branch past = (done, Ok tt)
      /\ stdout done = [LSearchingBranch b; LPulling b; LFound 1 b]
      /\ matchLines done = [].
Proof.
  intros b before cmd Hb Hrun Hout.
  split.
  - rewrite grepRepo_eq. fold cmd. rewrite Hrun. unfold matchesOf. simpl.
    rewrite Hout. reflexivity.
  - pose proof (searchBranch_eq W repoPath regex includeGlobs excludeGlobs branch past)
      as E.
    cbv zeta in E. fold b in E. fold before in E. fold cmd in E.
    rewrite Hrun in E. apply String.eqb_neq in Hb. rewrite Hb in E.
    unfold matchesOf in E. simpl fst in E. simpl snd in E. cbv iota in E.
    rewrite Hout in E.
    eexists. split; [exact E|].
    destruct (searchCmd_name (exec_LookPath W before "rg") regex includeGlobs excludeGlobs)
      as [Hn | Hn]; fold cmd in Hn; rewrite Hn; split; reflexivity.
Qed.

Lemma C9_blank_output_counts_one_witness :
  exists done,
    searchBranch Demo.silent "/repo" "TODO" [] [] "main" [] = (done, Ok tt)
    /\ stdout done = [LSearchingBranch "main"; LPulling "main"; LFound 1 "main"]
    /\ matchLines done = [].
Proof.
  destruct (C9_blank_output_counts_one Demo.silent "/repo" "TODO" [] [] "main" []
              Demo.lf) as [_ H];
    [discriminate | reflexivity | reflexivity | exact H].
Defined.

(** C10.  A run of the action that fails restores nothing: it never
    runs [git stash pop], never checks a branch out, and prints neither
    of the two restoring lines.  When it fails on the listing of the
    branches or on the regex, the stash push has been run before: the
    changes stay stashed.  (The loop itself never fails.) *)
Theorem C10_no_restore_on_failure (W : World) (c : Context) (done : Trace) (e : error) :
  Action W c [] = (done, Err e) ->
  ~ In stashPop (gitCalls done)
  /\ (forall b, ~ In ["checkout"; b] (gitCalls done))
  /\ (forall b, ~ In (LRestoringBranch b) (stdout done))
  /\ ~ In LRestoringStash (stdout done)
  /\ match e with
     | BranchListFailed _ | InvalidRegex _ => In stashPush (gitCalls done)
     | SearchFailed _ _ => False
     | _ => ~ In stashPush (gitCalls done)
     end.
Proof.
  intros E.
  destruct (Action_Outcome W c) as (done' & r & E' & Ho).
  rewrite E in E'. injection E' as <- <-.
  pose proof (Failed_gitCalls _ _ _ _ Ho) as Hg.
  assert (Hs : (forall b, ~ In (LRestoringBranch b) (stdout done))
               /\ ~ In LRestoringStash (stdout done)).
  { inversion Ho; subst; simpl; try (split; [intros b|]; tauto).
    - match goal with H : Preamble _ _ _ _ _ |- _ => destruct H as [o w _ _ _ _ Hw] end.
      destruct Hw as [-> | [-> | ->]]; simpl;
        (split; [intros b|]); intuition discriminate.
    - match goal with H : Preamble _ _ _ _ _ |- _ => destruct H as [o w _ _ _ _ Hw] end.
      match goal with H : Listing _ _ _ _ _ _ |- _ => destruct H end;
        destruct Hw as [-> | [-> | ->]]; simpl;
        (split; [intros b|]); intuition discriminate. }
  destruct Hs as [Hs1 Hs2].
  destruct e; try contradiction; rewrite Hg;
    try (destruct (String.eqb (c_branches c) ""));
    (repeat split; [| intros b | exact Hs1 | exact Hs2 |]);
    simpl; unfold stashPop, stashPush, revParse, fetchAll, branchR;
    intuition congruence.
Qed.

Lemma C10_no_restore_on_failure_witness :
  In stashPush
     (gitCalls (fst (Action Demo.world (Demo.request "/repo" "(" "main,dev") [])))
  /\ ~ In stashPop
       (gitCalls (fst (Action Demo.world (Demo.request "/repo" "(" "main,dev") []))).
Proof.
  destruct (C10_no_restore_on_failure Demo.world (Demo.request "/repo" "(" "main,dev")
              _ _ eq_refl) as (H1 & _ & _ & _ & H5).
  split; [exact H5 | exact H1].
Defined.

(** ** More of the program *)

Module More.

(** *** The string functions *)

Lemma Split_splitLoop s sep : Split s sep = splitLoop sep (Count sep s) s.
Proof.
  unfold Split, SplitN. pose proof (StringFacts.Count_le_length sep s).
  replace (Nat.min (Count sep s + 1) (String.length s + 1)) with (S (Count sep s))
    by lia.
  reflexivity.
Qed.

Lemma splitLoop_not_nil sep k s : splitLoop sep k s <> [].
Proof.
  destruct k; simpl; [discriminate|].
  destruct (cut sep s) as [[a b]|]; discriminate.
Qed.

Lemma Join_cons e rest sep :
  rest <> [] -> Join (e :: rest) sep = (e ++ String sep (Join rest sep))%string.
Proof. destruct rest; [contradiction | reflexivity]. Qed.

Lemma Join_splitLoop sep k s : Join (splitLoop sep k s) sep = s.
Proof.
  revert s. induction k as [|k IH]; intros s; simpl; [reflexivity|].
  destruct (cut sep s) as [[a b]|] eqn:E; [|reflexivity].
  rewrite Join_cons by apply splitLoop_not_nil.
  rewrite IH. apply StringFacts.cut_Some in E. symmetry. apply E.
Qed.

Lemma splitLoop_parts sep k s :
  Count sep s <= k -> Forall (fun part => Count sep part = 0) (splitLoop sep k s).
Proof.
  revert s. induction k as [|k IH]; intros s H; simpl.
  - constructor; [lia | constructor].
  - destruct (cut sep s) as [[a b]|] eqn:E.
    + apply StringFacts.cut_Some in E. destruct E as (_ & Ha & Hc).
      constructor; [exact Ha | apply IH; lia].
    + apply StringFacts.cut_None in E. constructor; [exact E | constructor].
Qed.

Lemma Count_append sep a b : Count sep (a ++ b)%string = Count sep a + Count sep b.
Proof. induction a as [|c a IH]; simpl; [reflexivity | rewrite IH; lia]. Qed.

Lemma cut_append sep e r :
  Count sep e = 0 -> cut sep (e ++ String sep r)%string = Some (e, r).
Proof.
  induction e as [|c e IH]; simpl; intros H.
  - rewrite Ascii.eqb_refl. reflexivity.
  - destruct (Ascii.eqb c sep); [discriminate|]. rewrite IH by exact H. reflexivity.
Qed.

Lemma Count_Join sep parts :
  Forall (fun part => Count sep part = 0) parts ->
  Count sep (Join parts sep) = List.length parts - 1.
Proof.
  induction 1 as [|e rest He _ IH]; [reflexivity|].
  destruct rest as [|e' rest]; [simpl; lia|].
  rewrite Join_cons by discriminate. rewrite Count_append, He.
  cbn [Count]. rewrite Ascii.eqb_refl, IH. simpl. lia.
Qed.

Lemma splitLoop_Join sep parts k :
  parts <> [] ->
  Forall (fun part => Count sep part = 0) parts ->
  List.length parts - 1 <= k ->
  splitLoop sep k (Join parts sep) = parts.
Proof.
  intros Hne Hall. revert k. induction Hall as [|e rest He Hrest IH]; [contradiction|].
  intros k Hk. destruct rest as [|e' rest].
  - simpl Join. destruct k; simpl; [reflexivity|].
    apply StringFacts.cut_None in He. rewrite He. reflexivity.
  - rewrite Join_cons by discriminate. destruct k as [|k]; [simpl in Hk; lia|].
    simpl splitLoop. rewrite cut_append by exact He.
    f_equal. apply IH; [discriminate | simpl in *; lia].
Qed.

(** X12.  Splitting loses nothing and cuts at every separator: for
    [n >= 1] the parts of [SplitN], joined with the separator, give the
    string back; [Split] gives one part more than there are separators,
    never an empty list, and no part of it holds the separator. *)
Theorem Split_Join (s : string) (sep : ascii) :
  (forall n, Join (SplitN s sep (S n)) sep = s)
  /\ Join (Split s sep) sep = s
  /\ List.length (Split s sep) = Count sep s + 1
  /\ (forall part, In part (Split s sep) -> Count sep part = 0).
Proof.
  split; [|split; [|split]].
  - intros n. unfold SplitN.
    destruct (Nat.min (S n) (String.length s + 1)) as [|k] eqn:E; [lia|].
    apply Join_splitLoop.
  - rewrite Split_splitLoop. apply Join_splitLoop.
  - unfold Split. rewrite StringFacts.SplitN_length. lia.
  - rewrite Split_splitLoop. apply Forall_forall. apply splitLoop_parts. lia.
Qed.

(** X13.  The other way round: a list that is not empty, of parts without
    the separator, is what [Split] gives for the parts joined. *)
Theorem Join_Split (parts : list string) (sep : ascii) :
  parts <> [] ->
  (forall part, In part parts -> Count sep part = 0) ->
  Split (Join parts sep) sep = parts.
Proof.
  intros Hne Hall. apply Forall_forall in Hall.
  rewrite Split_splitLoop. apply splitLoop_Join; try assumption.
  rewrite Count_Join by exact Hall. lia.
Qed.

Lemma Join_Split_witness :
  Split (Join ["main"; ""; " dev"] comma) comma = ["main"; ""; " dev"].
Proof.
  apply (Join_Split ["main"; ""; " dev"] comma); [discriminate|].
  intros part [<- | [<- | [<- | []]]]; reflexivity.
Defined.

Section Runes.

Variable r1 : ascii -> bool.
Variable r2 : ascii -> ascii -> bool.
Variable r3 : ascii -> ascii -> ascii -> bool.

(** What [dropRunes] cuts is made of runes of the set only. *)
Lemma dropRunes_cut (l : bytes) :
  exists p, l = p ++ dropRunes r1 r2 r3 l /\ dropRunes r1 r2 r3 p = [].
Proof.
  induction l as [l IH] using StringFacts.list_length_ind.
  rewrite StringFacts.dropRunes_unfold.
  destruct l as [|a t1]; [exists []; auto|].
  destruct (r1 a) eqn:E1.
  { destruct (IH t1) as (p & Hp & Hd); [simpl; lia|].
    exists (a :: p). split; [simpl; f_equal; exact Hp|].
    rewrite StringFacts.dropRunes_unfold, E1. exact Hd. }
  destruct t1 as [|b t2]; [exists []; auto|].
  destruct (r2 a b) eqn:E2.
  { destruct (IH t2) as (p & Hp & Hd); [simpl; lia|].
    exists (a :: b :: p). split; [simpl; do 2 f_equal; exact Hp|].
    rewrite StringFacts.dropRunes_unfold, E1, E2. exact Hd. }
  destruct t2 as [|c t3]; [exists []; auto|].
  destruct (r3 a b c) eqn:E3.
  { destruct (IH t3) as (p & Hp & Hd); [simpl; lia|].
    exists (a :: b :: c :: p). split; [simpl; do 3 f_equal; exact Hp|].
    rewrite StringFacts.dropRunes_unfold, E1, E2, E3. exact Hd. }
  exists []. auto.
Qed.

End Runes.

(** X14.  [TrimSpace] cuts white space and nothing else, at the two ends
    only: the string is a run of white space, the result, and a run of
    white space; the result neither begins nor ends with white space, so
    trimming it again changes nothing. *)
Theorem TrimSpace_shape (s : string) :
  (exists a b,
      list_ascii_of_string s = a ++ list_ascii_of_string (TrimSpace s) ++ b
      /\ trimLeft a = [] /\ trimRight b = [])
  /\ trimmed (list_ascii_of_string (TrimSpace s))
  /\ TrimSpace (TrimSpace s) = TrimSpace s
  /\ String.length (TrimSpace s) <= String.length s.
Proof.
  assert (Hshape : exists a b,
             list_ascii_of_string s = a ++ list_ascii_of_string (TrimSpace s) ++ b
             /\ trimLeft a = [] /\ trimRight b = []).
  { unfold TrimSpace. rewrite list_ascii_of_string_of_list_ascii.
    set (l := list_ascii_of_string s).
    destruct (dropRunes_cut isSpace1 isSpace2 isSpace3 l) as (a & Ha & Hda).
    fold (trimLeft l) in Ha. fold (trimLeft a) in Hda.
    destruct (dropRunes_cut isSpace1 isSpace2r isSpace3r (rev (trimLeft l)))
      as (q & Hq & Hdq).
    exists a, (rev q). split; [|split; [exact Hda|]].
    - rewrite Ha at 1. f_equal.
      rewrite <- (rev_involutive (trimLeft l)) at 1. rewrite Hq at 1.
      rewrite rev_app_distr. reflexivity.
    - unfold trimRight. rewrite rev_involutive, Hdq. reflexivity. }
  split; [exact Hshape|].
  split; [apply StringFacts.TrimSpace_trimmed|].
  split; [apply StringFacts.TrimSpace_idempotent|].
  destruct Hshape as (a & b & H & _).
  assert (Hl : forall x, String.length x = List.length (list_ascii_of_string x)).
  { induction x as [|c x IH]; simpl; [reflexivity | f_equal; exact IH]. }
  rewrite !Hl, H, !length_app. lia.
Qed.

Lemma TrimPrefix_prefix_iff (s prefix : string) :
  HasPrefix s prefix = true <-> exists rest, s = (prefix ++ rest)%string.
Proof.
  split.
  - revert s. induction prefix as [|p prefix IH]; intros s H; simpl in H.
    + exists s. reflexivity.
    + destruct s as [|c s]; [discriminate|].
      apply andb_true_iff in H. destruct H as [Hc Hr].
      apply Ascii.eqb_eq in Hc. subst c.
      destruct (IH s Hr) as [rest ->]. exists rest. reflexivity.
  - intros [rest ->]. induction prefix as [|c p IH]; simpl.
    + destruct rest; reflexivity.
    + rewrite Ascii.eqb_refl. exact IH.
Qed.

(** X15.  [HasPrefix] says whether the string starts with the prefix,
    [TrimPrefix] then cuts exactly the prefix, once, and leaves alone a
    string that does not start with it. *)
Theorem TrimPrefix_spec (s prefix : string) :
  (HasPrefix s prefix = true <-> exists rest, s = (prefix ++ rest)%string)
  /\ (forall rest, TrimPrefix (prefix ++ rest)%string prefix = rest)
  /\ (HasPrefix s prefix = false -> TrimPrefix s prefix = s).
Proof.
  assert (Hskip : forall p rest, skip (String.length p) (p ++ rest)%string = rest).
  { induction p as [|c p IH]; intros rest; simpl; [reflexivity | apply IH]. }
  assert (Hhas : forall p rest, HasPrefix (p ++ rest)%string p = true).
  { intros p rest. apply TrimPrefix_prefix_iff. eauto. }
  split; [apply TrimPrefix_prefix_iff | split].
  - intros rest. unfold TrimPrefix. rewrite Hhas. apply Hskip.
  - apply StringFacts.TrimPrefix_id.
Qed.

Lemma Contains_HasPrefix s substr :
  HasPrefix s substr = true -> Contains s substr = true.
Proof. destruct s; simpl; intros ->; reflexivity. Qed.

(** X16.  [Contains] is true exactly when the substring occurs somewhere
    in the string. *)
Theorem Contains_spec (s substr : string) :
  Contains s substr = true <-> exists a b, s = (a ++ substr ++ b)%string.
Proof.
  split.
  - induction s as [|c s IH]; simpl; intros H.
    + rewrite orb_false_r in H.
      apply (proj1 (TrimPrefix_prefix_iff "" substr)) in H.
      destruct H as [rest H]. exists "", rest. exact H.
    + apply orb_true_iff in H. destruct H as [H | H].
      * apply (proj1 (TrimPrefix_prefix_iff (String c s) substr)) in H.
        destruct H as [rest H]. exists "", rest. exact H.
      * destruct (IH H) as (a & b & ->). exists (String c a), b. reflexivity.
  - intros (a & b & ->). induction a as [|c a IH].
    + simpl append. apply Contains_HasPrefix.
      apply (TrimPrefix_prefix_iff (substr ++ b) substr). eauto.
    + simpl. rewrite IH. apply orb_true_r.
Qed.

(** *** The search command *)

Lemma globArgs_filter bang globs :
  globArgs bang globs
  = flat_map (fun g => ["--glob"; (bang ++ g)%string]) (filter notBlank globs).
Proof.
  unfold globArgs, notBlank. induction globs as [|g gs IH]; [reflexivity|].
  simpl. destruct (String.eqb (TrimSpace g) ""); simpl; rewrite IH; reflexivity.
Qed.

Lemma length_pairs {A} (f : A -> string) (gs : list A) :
  List.length (flat_map (fun g => ["--glob"; f g]) gs) = 2 * List.length gs.
Proof. induction gs as [|g gs IH]; simpl; [reflexivity | rewrite IH; lia]. Qed.

(** X10.  Without [rg] the command is [grep -rnE pattern .] and the
    globs are not in it.  With [rg] the arguments are the three flags,
    then [--glob g] for every include glob and [--glob !g] for every
    exclude glob, in the order given, then the pattern, which comes
    last; a glob that is blank once trimmed adds nothing, and a glob
    that is not is passed as it was given, not trimmed. *)
Theorem searchCmd_arguments (pattern : string) (includeGlobs excludeGlobs : list string) :
  searchCmd false pattern includeGlobs excludeGlobs = ("grep", ["-rnE"; pattern; "."])
  /\ searchCmd true pattern includeGlobs excludeGlobs
     = ("rg", ["-n"; "-uu"; "--pcre2"]
                ++ flat_map (fun g => ["--glob"; g]) (filter notBlank includeGlobs)
                ++ flat_map (fun g => ["--glob"; ("!" ++ g)%string])
                            (filter notBlank excludeGlobs)
                ++ [pattern])
  /\ last (snd (searchCmd true pattern includeGlobs excludeGlobs)) "" = pattern
  /\ List.length (snd (searchCmd true pattern includeGlobs excludeGlobs))
     = 4 + 2 * (List.length (filter notBlank includeGlobs)
                + List.length (filter notBlank excludeGlobs))
  /\ ((forall g, In g (includeGlobs ++ excludeGlobs) -> TrimSpace g = "") ->
      searchCmd true pattern includeGlobs excludeGlobs
      = ("rg", ["-n"; "-uu"; "--pcre2"; pattern])).
Proof.
  assert (E : searchCmd true pattern includeGlobs excludeGlobs
              = ("rg", ["-n"; "-uu"; "--pcre2"]
                         ++ flat_map (fun g => ["--glob"; g]) (filter notBlank includeGlobs)
                         ++ flat_map (fun g => ["--glob"; ("!" ++ g)%string])
                                     (filter notBlank excludeGlobs)
                         ++ [pattern])).
  { unfold searchCmd. rewrite !globArgs_filter. reflexivity. }
  split; [reflexivity|]. split; [exact E|]. rewrite E. cbn [snd].
  split; [|split].
  - rewrite !app_assoc. apply last_last.
  - rewrite !length_app, (length_pairs (fun g => g)),
      (length_pairs (fun g => ("!" ++ g)%string)).
    simpl. lia.
  - intros H.
    assert (Hnil : forall gs, (forall g, In g gs -> TrimSpace g = "") ->
                              filter notBlank gs = []).
    { induction gs as [|g gs IH]; intros Hg; [reflexivity|].
      simpl. unfold notBlank at 1. rewrite (Hg g (or_introl eq_refl)). simpl.
      apply IH. intros g' Hin. apply Hg. right. exact Hin. }
    rewrite (Hnil includeGlobs), (Hnil excludeGlobs); [reflexivity | |];
      intros g Hin; apply H; apply in_or_app; auto.
Qed.

Section World.

Variable W : World.

(** X11.  [grepRepo] starts one search and never returns an error.  It
    returns no line at all only when the tool failed and printed
    nothing; in every other case, also when the tool failed with a
    message or succeeded with nothing, it returns one line more than
    there are newlines in the trimmed output, so one line at least. *)
Theorem grepRepo_lines (repoPath pattern : string) (includeGlobs excludeGlobs : list string)
        (past : Trace) :
  let cmd := searchCmd (exec_LookPath W past "rg") pattern includeGlobs excludeGlobs in
  let answer := cmd_Run W (past ++ [LookPath "rg"]) repoPath (fst cmd) (snd cmd) in
  exists matches,
    grepRepo W repoPath pattern includeGlobs excludeGlobs past
    = ([LookPath "rg"; Exec repoPath (fst cmd) (snd cmd)], Ok (matches, None))
    /\ (matches = [] <-> snd answer <> None /\ fst answer = "")
    /\ (matches <> [] ->
        List.length matches = Count newline (TrimSpace (fst answer)) + 1).
Proof.
  intros cmd answer. exists (matchesOf answer).
  split; [apply grepRepo_eq|].
  assert (Hlen : forall s, List.length (Split s newline) = Count newline s + 1).
  { intros s. unfold Split. rewrite StringFacts.SplitN_length. lia. }
  assert (Hne : forall s, Split s newline <> []).
  { intros s H. pose proof (Hlen s) as Hl. rewrite H in Hl. simpl in Hl. lia. }
  unfold matchesOf. destruct answer as [out [e|]]; cbn [fst snd].
  - destruct out as [|ch out]; simpl String.length; cbn [Nat.eqb].
    + split; [|intros H; contradiction]. split; [|reflexivity].
      intros _. split; [discriminate | reflexivity].
    + split; [|intros _; apply Hlen]. split.
      * intros H. destruct (Hne _ H).
      * intros [_ H]. discriminate H.
  - split; [|intros _; apply Hlen]. split.
    + intros H. destruct (Hne _ H).
    + intros [H _]. contradiction.
Qed.

Lemma warningOf_eq {B} (c : Context) (k : unit -> M B) past :
  bind (if (0 <? List.length (c_include_glob c)) || (0 <? List.length (c_exclude_glob c))
        then hasRg <- commandExists W "rg" ;;
             if negb hasRg then print LWarnNoRipgrep else ret tt
        else ret tt) k past
  = emit (warningOf W c past) (k tt (past ++ warningOf W c past)).
Proof.
  unfold warningOf.
  destruct ((0 <? List.length (c_include_glob c)) || (0 <? List.length (c_exclude_glob c))).
  - rewrite bind_bind, bind_commandExists.
    destruct (exec_LookPath W past "rg"); cbn [negb].
    + rewrite bind_ret. reflexivity.
    + rewrite bind_print, emit_emit, <- app_assoc. reflexivity.
  - rewrite bind_ret, app_nil_r, emit_nil. reflexivity.
Qed.

Lemma forEach_searchBranch_Ok repoPath regex includeGlobs excludeGlobs branches past :
  forEach branches (searchBranch W repoPath regex includeGlobs excludeGlobs) past
  = (fst (forEach branches (searchBranch W repoPath regex includeGlobs excludeGlobs) past),
     Ok tt).
Proof.
  destruct (forEach_searchBranch W repoPath regex includeGlobs excludeGlobs branches past)
    as (loop & -> & _).
  reflexivity.
Qed.

(** The action does what [unfolded] says. *)
Lemma Action_unfolded c : Action W c [] = unfolded W c.
Proof.
  unfold Action, unfolded.
  destruct (filepath_Abs W (c_repo c)) as [repoPath|e]; [|reflexivity].
  rewrite bind_stat. simpl app. cbv zeta.
  destruct (os_IsNotExist W [] (filepath_Join repoPath ".git")); [reflexivity|].
  rewrite bind_runGitCmd. simpl app. fold revParse.
  destruct (cmd_Run W [Stat (filepath_Join repoPath ".git")] repoPath "git" revParse)
    as [out [e|]]; cbn [fst snd]; cbv beta iota; [reflexivity|].
  rewrite !bind_print. simpl app.
  rewrite warningOf_eq.
  rewrite bind_print; cbv beta. rewrite bind_runGitCmd; cbv beta.
  rewrite bind_print; cbv beta. rewrite bind_runGitCmd; cbv beta.
  fold stashPush. fold fetchAll.
  rewrite !emit_emit. repeat rewrite <- app_assoc. simpl app.
  change (Stat (filepath_Join repoPath ".git")
            :: Exec repoPath "git" revParse
            :: Stdout (LRepository repoPath)
            :: Stdout (LSearchPattern (c_regex c))
            :: Stdout (LCurrentBranch (TrimSpace out))
            :: [Stdout LBlank])
    with (header c repoPath (TrimSpace out)).
  change (Stat (filepath_Join repoPath ".git")
            :: Exec repoPath "git" revParse
            :: Stdout (LRepository repoPath)
            :: Stdout (LSearchPattern (c_regex c))
            :: Stdout (LCurrentBranch (TrimSpace out))
            :: Stdout LBlank
            :: warningOf W c (header c repoPath (TrimSpace out))
            ++ [Stdout LStashing; Exec repoPath "git" stashPush;
                Stdout LFetching; Exec repoPath "git" fetchAll])
    with (preambleOf W c repoPath (TrimSpace out)).
  set (pre := preambleOf W c repoPath (TrimSpace out)).
  destruct (listBranches W repoPath (c_branches c) pre) as [listing [branches|e]] eqn:El.
  2:{ rewrite (bind_Err _ _ _ _ _ El). reflexivity. }
  rewrite (bind_emit _ _ _ _ _ El), emit_emit.
  destruct (regexp_Compile W (c_regex c)) as [e|].
  { unfold fail, emit. simpl. rewrite app_nil_r. reflexivity. }
  rewrite bind_print; cbv beta.
  rewrite (bind_emit _ _ _ _ _ (forEach_searchBranch_Ok _ _ _ _ _ _)).
  rewrite bind_print; cbv beta. rewrite bind_print; cbv beta.
  rewrite bind_runGitCmd; cbv beta. rewrite bind_print; cbv beta.
  rewrite bind_runGitCmd; cbv beta. rewrite bind_print; cbv beta.
  fold stashPop. unfold ret. rewrite !emit_emit, emit_pair, app_nil_r.
  subst pre. unfold preambleOf, header, closing.
  repeat rewrite <- app_assoc. reflexivity.
Qed.

Lemma listBranches_run repoPath branchesArg past :
  listBranches W repoPath branchesArg past
  = if String.eqb branchesArg ""
    then ([Exec repoPath "git" branchR],
          match snd (cmd_Run W past repoPath "git" branchR) with
          | Some e => Err (BranchListFailed e)
          | None =>
              Ok (remoteBranches (TrimSpace (fst (cmd_Run W past repoPath "git" branchR))))
          end)
    else ([], Ok (Split branchesArg comma)).
Proof.
  unfold listBranches. destruct (String.eqb branchesArg ""); cbn [negb]; [|reflexivity].
  rewrite bind_runGitCmd. fold branchR.
  destruct (cmd_Run W past repoPath "git" branchR) as [out [e|]]; reflexivity.
Qed.

Lemma loop_Visits repoPath regex includeGlobs excludeGlobs branches past :
  Visits repoPath branches
         (fst (forEach branches
                       (searchBranch W repoPath regex includeGlobs excludeGlobs) past)).
Proof.
  destruct (forEach_searchBranch W repoPath regex includeGlobs excludeGlobs branches past)
    as (loop & -> & Hv).
  exact Hv.
Qed.

Lemma gitCalls_preambleOf c repoPath currentBranch :
  gitCalls (preambleOf W c repoPath currentBranch) = [revParse; stashPush; fetchAll].
Proof.
  unfold preambleOf, warningOf, header.
  destruct ((0 <? List.length (c_include_glob c)) || (0 <? List.length (c_exclude_glob c)));
    [destruct (exec_LookPath W _ "rg")|]; reflexivity.
Qed.

Lemma subprocesses_preambleOf c repoPath currentBranch :
  subprocesses (preambleOf W c repoPath currentBranch)
  = [("git", revParse); ("git", stashPush); ("git", fetchAll)].
Proof.
  unfold preambleOf, warningOf, header.
  destruct ((0 <? List.length (c_include_glob c)) || (0 <? List.length (c_exclude_glob c)));
    [destruct (exec_LookPath W _ "rg")|]; reflexivity.
Qed.

Lemma dirs_preambleOf c repoPath currentBranch :
  dirs (preambleOf W c repoPath currentBranch) = [repoPath; repoPath; repoPath].
Proof.
  unfold preambleOf, warningOf, header.
  destruct ((0 <? List.length (c_include_glob c)) || (0 <? List.length (c_exclude_glob c)));
    [destruct (exec_LookPath W _ "rg")|]; reflexivity.
Qed.

Ltac clean :=
  repeat match goal with
         | H : exists _, _ |- _ => destruct H
         | H : _ /\ _ |- _ => destruct H
         | H : Err _ = Err _ |- _ => injection H as H; subst
         | H : inl _ = inl _ |- _ => injection H as H; subst
         | H : inr _ = inr _ |- _ => injection H as H; subst
         | H : Some _ = Some _ |- _ => injection H as H; subst
         | H : (_, _) = (_, _) |- _ =>
             first [injection H as ? ? | injection H as ?]; subst
         end.

(** X1.  The fatal checks come in a fixed order, and each error is
    returned exactly when its check is the first to fail: the path, then
    [.git], then the current branch, then (when no branch is given) the
    listing of the remote branches, then the regex.  The search-failed
    error is never returned. *)
Theorem errors_in_order (c : Context) :
  (forall e, snd (Action W c []) = Err (InvalidPath e)
             <-> filepath_Abs W (c_repo c) = inr e)
  /\ (forall repoPath,
         snd (Action W c []) = Err (NotAGitRepo repoPath)
         <-> filepath_Abs W (c_repo c) = inl repoPath
             /\ os_IsNotExist W [] (filepath_Join repoPath ".git") = true)
  /\ (forall e,
         snd (Action W c []) = Err (GitCommandFailed e)
         <-> exists repoPath,
             filepath_Abs W (c_repo c) = inl repoPath
             /\ os_IsNotExist W [] (filepath_Join repoPath ".git") = false
             /\ snd (cmd_Run W [Stat (filepath_Join repoPath ".git")]
                             repoPath "git" revParse) = Some e)
  /\ (forall e,
         snd (Action W c []) = Err (BranchListFailed e)
         <-> exists repoPath out,
             filepath_Abs W (c_repo c) = inl repoPath
             /\ os_IsNotExist W [] (filepath_Join repoPath ".git") = false
             /\ cmd_Run W [Stat (filepath_Join repoPath ".git")] repoPath "git" revParse
                = (out, None)
             /\ c_branches c = ""
             /\ snd (cmd_Run W (preambleOf W c repoPath (TrimSpace out))
                             repoPath "git" branchR) = Some e)
  /\ (forall e,
         snd (Action W c []) = Err (InvalidRegex e)
         <-> exists repoPath out,
             filepath_Abs W (c_repo c) = inl repoPath
             /\ os_IsNotExist W [] (filepath_Join repoPath ".git") = false
             /\ cmd_Run W [Stat (filepath_Join repoPath ".git")] repoPath "git" revParse
                = (out, None)
             /\ (c_branches c <> ""
                 \/ snd (cmd_Run W (preambleOf W c repoPath (TrimSpace out))
                                 repoPath "git" branchR) = None)
             /\ regexp_Compile W (c_regex c) = Some e)
  /\ (forall branch e, snd (Action W c []) <> Err (SearchFailed branch e)).
Proof.
  rewrite Action_unfolded. unfold unfolded.
  destruct (filepath_Abs W (c_repo c)) as [repoPath|e0] eqn:Eabs;
    [cbv zeta;
     destruct (os_IsNotExist W [] (filepath_Join repoPath ".git")) eqn:Estat;
     [|destruct (cmd_Run W [Stat (filepath_Join repoPath ".git")] repoPath "git" revParse)
         as [out [e0|]] eqn:Ehead;
       [|rewrite listBranches_run;
         destruct (String.eqb (c_branches c) "") eqn:Eb;
         [apply String.eqb_eq in Eb;
          destruct (cmd_Run W (preambleOf W c repoPath (TrimSpace out))
                            repoPath "git" branchR) as [lout [e1|]] eqn:Elist
         |apply String.eqb_neq in Eb];
         cbn [fst snd];
         destruct (regexp_Compile W (c_regex c)) as [e2|] eqn:Ere]]|];
    cbn [snd]; repeat split; intros; clean.
  all: try congruence.
  all: try (exists repoPath; try exists out;
            rewrite ?Ehead, ?Elist; cbn [snd]; intuition congruence).
  all: try rewrite Eabs in *; clean; try congruence.
  all: try rewrite Ehead in *; cbn [snd] in *; clean; try congruence.
  all: try rewrite Elist in *; cbn [snd] in *; clean; try congruence.
  all: intuition congruence.
Qed.

End World.

(** *** What every run does and never does *)

Lemma searches_app a b : searches (a ++ b) = searches a ++ searches b.
Proof. unfold searches. rewrite subprocesses_app. apply filter_app. Qed.

Lemma dirs_app a b : dirs (a ++ b) = dirs a ++ dirs b.
Proof. apply flat_map_app. Qed.

Lemma searches_printed (f : string -> Line) ms :
  searches (map (fun m => Stdout (f m)) ms) = [].
Proof. unfold searches. rewrite subprocesses_printed. reflexivity. Qed.

Lemma dirs_printed (f : string -> Line) ms : dirs (map (fun m => Stdout (f m)) ms) = [].
Proof. induction ms; simpl; auto. Qed.

Lemma In_dirs dir name args t : In (Exec dir name args) t -> In dir (dirs t).
Proof.
  intros H. unfold dirs. apply in_flat_map. exists (Exec dir name args).
  split; [exact H | left; reflexivity].
Qed.

(** One search for each branch the loop goes to. *)
Lemma Visits_searches repoPath branches loop :
  Visits repoPath branches loop ->
  List.length (searches loop) = List.length (names branches).
Proof.
  induction 1 as [|b bs t Hb _ IH|b bs name args matches t Hb Hn _ IH].
  - reflexivity.
  - rewrite names_skip by exact Hb. exact IH.
  - rewrite names_visit by exact Hb.
    rewrite !searches_app, searches_printed, !length_app, IH.
    destruct Hn as [-> | ->]; reflexivity.
Qed.

Lemma Visits_dirs repoPath branches loop :
  Visits repoPath branches loop -> forall dir, In dir (dirs loop) -> dir = repoPath.
Proof.
  induction 1 as [|b bs t Hb _ IH|b bs name args matches t Hb Hn _ IH]; intros dir Hin.
  - destruct Hin.
  - exact (IH dir Hin).
  - rewrite !dirs_app, dirs_printed in Hin. simpl in Hin.
    destruct Hin as [E|[E|[E|Hin]]]; auto.
Qed.

Lemma Preamble_dirs W c repoPath currentBranch pre :
  Preamble W c repoPath currentBranch pre -> dirs pre = [repoPath; repoPath; repoPath].
Proof.
  intros [out warning _ _ _ _ Hw].
  destruct Hw as [-> | [-> | ->]]; reflexivity.
Qed.

Lemma Preamble_path W c repoPath currentBranch pre :
  Preamble W c repoPath currentBranch pre ->
  filepath_Abs W (c_repo c) = inl repoPath
  /\ TrimSpace currentBranch = currentBranch.
Proof.
  intros [out warning Ha _ _ -> _]. split; [exact Ha|].
  apply StringFacts.TrimSpace_idempotent.
Qed.

Lemma Listing_dirs W c repoPath past listing branches :
  Listing W c repoPath past listing branches ->
  forall dir, In dir (dirs listing) -> dir = repoPath.
Proof.
  intros [H | out H Hc] dir; simpl; intuition auto.
Qed.

(** X2.  The only git commands a run ever gives are [rev-parse], [stash
    push], [fetch], [branch -r], [checkout], [pull origin] and [stash
    pop]; [branch -r] is given only when no branch was asked for, and the
    branch handed to [checkout] and to [pull] is always trimmed. *)
Theorem git_commands_only (W : World) (c : Context) (args : list string) :
  In args (gitCalls (fst (Action W c []))) ->
  args = revParse \/ args = stashPush \/ args = fetchAll
  \/ (args = branchR /\ c_branches c = "")
  \/ args = stashPop
  \/ exists b, TrimSpace b = b
               /\ (args = ["checkout"; b] \/ args = ["pull"; "origin"; b]).
Proof.
  destruct (Action_Outcome W c) as (done & r & E & Ho). rewrite E. cbn [fst].
  destruct r as [[]|e].
  - inversion Ho; subst.
    match goal with H : Preamble _ _ _ _ _ |- _ => rename H into Hpre end.
    match goal with H : Listing _ _ _ _ _ _ |- _ => rename H into Hl end.
    match goal with H : Visits _ _ _ |- _ => rename H into Hv end.
    rewrite (Completed_gitCalls _ _ _ _ _ listing _ _ Hpre Hv).
    rewrite !in_app_iff. intros [H|[H|[H|H]]].
    + simpl in H. destruct H as [<-|[<-|[<-|[]]]]; auto 10.
    + destruct Hl as [Hb | out Hb Hc]; simpl in H; [tauto|].
      destruct H as [<- | []]. auto 10.
    + apply In_visit in H. destruct H as (b & Hin & H).
      apply In_names in Hin. destruct Hin as (_ & raw & _ & ->).
      do 5 right. exists (TrimSpace raw).
      split; [apply StringFacts.TrimSpace_idempotent | exact H].
    + simpl in H. destruct H as [<- | [<- | []]]; [|auto 10].
      do 5 right. exists currentBranch.
      split; [exact (proj2 (Preamble_path _ _ _ _ _ Hpre)) | auto].
  - pose proof (Failed_gitCalls _ _ _ _ Ho) as Hg.
    destruct e; try contradiction; rewrite Hg; simpl; try tauto.
    + intros [<-|[]]. auto.
    + inversion Ho; subst. intros [<-|[<-|[<-|[<-|[]]]]]; auto 10.
    + destruct (String.eqb (c_branches c) "") eqn:Eb; simpl.
      * apply String.eqb_eq in Eb. intros [<-|[<-|[<-|[<-|[]]]]]; auto 10.
      * intros [<-|[<-|[<-|[]]]]; auto 10.
Qed.

Lemma git_commands_only_witness :
  In ["pull"; "origin"; "feature-x"]
     (gitCalls (fst (Action Demo.world (Demo.request "/repo" "TODO" "") [])))
  /\ TrimSpace "feature-x" = "feature-x".
Proof.
  assert (H : In ["pull"; "origin"; "feature-x"]
                 (gitCalls (fst (Action Demo.world (Demo.request "/repo" "TODO" "") []))))
    by (simpl; tauto).
  split; [exact H|].
  destruct (git_commands_only Demo.world (Demo.request "/repo" "TODO" "") _ H)
    as [E|[E|[E|[[E _]|[E|(b & Hb & [E|E])]]]]]; try discriminate E.
  injection E as <-. exact Hb.
Defined.

(** X6.  In every run, failed or not, the search tool is started as many
    times as the loop pulls a branch: once for each branch it goes to and
    never otherwise; and the tool is [rg] or [grep]. *)
Theorem one_search_per_branch (W : World) (c : Context) :
  List.length (searches (fst (Action W c [])))
  = List.length (visited (fst (Action W c [])))
  /\ (forall name args, In (name, args) (searches (fst (Action W c []))) ->
                        name = "rg" \/ name = "grep").
Proof.
  destruct (Action_Outcome W c) as (done & r & E & Ho). rewrite E. cbn [fst].
  assert (Hs : forall name args, In (name, args) (searches done) ->
                                 In (name, args) (subprocesses done) /\ name <> "git").
  { intros name args H. unfold searches in H. apply filter_In in H.
    destruct H as [H1 H2]. split; [exact H1|].
    apply negb_true_iff, String.eqb_neq in H2. exact H2. }
  destruct r as [[]|e].
  - inversion Ho; subst.
    match goal with H : Preamble _ _ _ _ _ |- _ => rename H into Hpre end.
    match goal with H : Listing _ _ _ _ _ _ |- _ => rename H into Hl end.
    match goal with H : Visits _ _ _ |- _ => rename H into Hv end.
    split.
    + rewrite (Completed_visited _ _ _ _ _ _ _ _ Hpre Hl Hv).
      rewrite !searches_app, !length_app, (Visits_searches _ _ _ Hv).
      unfold searches at 1. rewrite (Preamble_subprocesses _ _ _ _ _ Hpre).
      destruct Hl; simpl; lia.
    + intros name args H. destruct (Hs name args H) as [Hin Hne].
      rewrite !subprocesses_app, (Preamble_subprocesses _ _ _ _ _ Hpre) in Hin.
      rewrite !in_app_iff in Hin. destruct Hin as [Hin|[Hin|[Hin|[Hin|Hin]]]].
      * simpl in Hin. intuition congruence.
      * destruct Hl; simpl in Hin; intuition congruence.
      * destruct Hin.
      * destruct (Visits_subprocesses _ _ _ Hv name args Hin) as [Hgit|Htool];
          [contradiction | exact Htool].
      * simpl in Hin. intuition congruence.
  - rewrite (Failed_visited _ _ _ _ Ho).
    assert (Hnil : searches done = []).
    { destruct (searches done) as [|[name args] rest] eqn:Es; [reflexivity|].
      destruct (Hs name args) as [Hin Hne]; [rewrite ?Es; left; reflexivity|].
      destruct (Hne (Failed_subprocesses _ _ _ _ Ho name args Hin)). }
    rewrite Hnil. split; [reflexivity | intros name args []].
Qed.

(** X7.  Every subprocess of a run, git and the search tool alike, is
    started in the directory the repository path resolves to. *)
Theorem subprocesses_in_repository (W : World) (c : Context) (repoPath : string) :
  filepath_Abs W (c_repo c) = inl repoPath ->
  forall dir name args,
    In (Exec dir name args) (fst (Action W c [])) -> dir = repoPath.
Proof.
  intros Habs dir name args Hin. apply In_dirs in Hin. revert Hin.
  destruct (Action_Outcome W c) as (done & r & E & Ho). rewrite E. cbn [fst].
  inversion Ho as [e Ha | p Ha Hs | p out e Ha Hs Hh
                   | p cur pre out e Hpre Hb Hl
                   | p cur pre listing branches e Hpre Hl Hre
                   | p cur pre listing branches loop Hpre Hl Hre Hv]; subst.
  - intros [].
  - intros [].
  - simpl. intros [<- | []]. congruence.
  - pose proof (proj1 (Preamble_path _ _ _ _ _ Hpre)) as Ha.
    assert (p = repoPath) as -> by congruence.
    rewrite dirs_app, (Preamble_dirs _ _ _ _ _ Hpre). simpl. intuition auto.
  - pose proof (proj1 (Preamble_path _ _ _ _ _ Hpre)) as Ha.
    assert (p = repoPath) as -> by congruence.
    rewrite dirs_app, (Preamble_dirs _ _ _ _ _ Hpre), in_app_iff.
    intros [H|H]; [simpl in H; intuition auto|].
    exact (Listing_dirs _ _ _ _ _ _ Hl dir H).
  - pose proof (proj1 (Preamble_path _ _ _ _ _ Hpre)) as Ha.
    assert (p = repoPath) as -> by congruence.
    rewrite !dirs_app, (Preamble_dirs _ _ _ _ _ Hpre), !in_app_iff.
    intros [H|[H|[H|[H|H]]]].
    + simpl in H. intuition auto.
    + exact (Listing_dirs _ _ _ _ _ _ Hl dir H).
    + destruct H.
    + exact (Visits_dirs _ _ _ Hv dir H).
    + simpl in H. intuition auto.
Qed.

Lemma subprocesses_in_repository_witness :
  In (Exec "/repo" "rg" ["-n"; "-uu"; "--pcre2"; "TODO"])
     (fst (Action Demo.world (Demo.request "/repo" "TODO" "main") []))
  /\ "/repo" = "/repo".
Proof.
  assert (H : In (Exec "/repo" "rg" ["-n"; "-uu"; "--pcre2"; "TODO"])
                 (fst (Action Demo.world (Demo.request "/repo" "TODO" "main") [])))
    by (simpl; tauto).
  split; [exact H|].
  exact (subprocesses_in_repository Demo.world (Demo.request "/repo" "TODO" "main")
           "/repo" eq_refl _ _ _ H).
Defined.

(** *** The runs that end well *)

Lemma Action_Ok_inv W c done :
  Action W c [] = (done, Ok tt) ->
  exists repoPath out listing branches,
    filepath_Abs W (c_repo c) = inl repoPath
    /\ os_IsNotExist W [] (filepath_Join repoPath ".git") = false
    /\ cmd_Run W [Stat (filepath_Join repoPath ".git")] repoPath "git" revParse
       = (out, None)
    /\ listBranches W repoPath (c_branches c) (preambleOf W c repoPath (TrimSpace out))
       = (listing, Ok branches)
    /\ regexp_Compile W (c_regex c) = None
    /\ done
       = preambleOf W c repoPath (TrimSpace out)
           ++ listing
           ++ [Stdout (LSearchingAcross (List.length branches))]
           ++ fst (forEach branches
                           (searchBranch W repoPath (c_regex c)
                                         (c_include_glob c) (c_exclude_glob c))
                           (preambleOf W c repoPath (TrimSpace out)
                              ++ listing
                              ++ [Stdout (LSearchingAcross (List.length branches))]))
           ++ closing repoPath (TrimSpace out).
Proof.
  rewrite Action_unfolded. unfold unfolded.
  destruct (filepath_Abs W (c_repo c)) as [repoPath|e] eqn:Ha; [|discriminate].
  cbv zeta.
  destruct (os_IsNotExist W [] (filepath_Join repoPath ".git")) eqn:Hs; [discriminate|].
  destruct (cmd_Run W [Stat (filepath_Join repoPath ".git")] repoPath "git" revParse)
    as [out [e|]] eqn:Hh; [discriminate|].
  destruct (listBranches W repoPath (c_branches c) (preambleOf W c repoPath (TrimSpace out)))
    as [listing [branches|e]] eqn:Hl; [|discriminate].
  destruct (regexp_Compile W (c_regex c)) eqn:Hre; [discriminate|].
  intros H. injection H as <-.
  exists repoPath, out, listing, branches. repeat split; auto.
Qed.

Lemma listBranches_Ok W repoPath branchesArg past listing branches :
  listBranches W repoPath branchesArg past = (listing, Ok branches) ->
  (branchesArg <> "" /\ listing = [] /\ branches = Split branchesArg comma)
  \/ (branchesArg = "" /\ listing = [Exec repoPath "git" branchR]
      /\ exists out, cmd_Run W past repoPath "git" branchR = (out, None)
                     /\ branches = remoteBranches (TrimSpace out)).
Proof.
  rewrite listBranches_run. destruct (String.eqb branchesArg "") eqn:Eb.
  - apply String.eqb_eq in Eb.
    destruct (cmd_Run W past repoPath "git" branchR) as [out [e|]]; cbn [fst snd];
      intros H; [discriminate|].
    injection H as <- <-. right. eauto.
  - apply String.eqb_neq in Eb. intros H. injection H as <- <-. left. auto.
Qed.

Lemma names_length branches : List.length (names branches) <= List.length branches.
Proof.
  unfold names. rewrite <- (length_map TrimSpace branches). apply filter_length_le.
Qed.

Lemma announced_app a b : announced (a ++ b) = announced a ++ announced b.
Proof. unfold announced. rewrite stdout_app. apply flat_map_app. Qed.

Lemma loopLine_announced t : forallb loopLine (stdout t) = true -> announced t = [].
Proof.
  unfold announced. induction (stdout t) as [|l ls IH]; [reflexivity|].
  simpl. intros H. apply andb_true_iff in H. destruct H as [Hl Hls].
  rewrite (IH Hls). destruct l; try discriminate; reflexivity.
Qed.

Lemma loopLine_In t l : forallb loopLine (stdout t) = true -> In l (stdout t) -> loopLine l = true.
Proof. intros H. exact (proj1 (forallb_forall _ _) H l). Qed.

Lemma stdout_preambleOf W c repoPath currentBranch :
  stdout (preambleOf W c repoPath currentBranch)
  = [LRepository repoPath; LSearchPattern (c_regex c);
     LCurrentBranch currentBranch; LBlank]
      ++ (if globsGiven c
             && negb (exec_LookPath W (header c repoPath currentBranch) "rg")
          then [LWarnNoRipgrep] else [])
      ++ [LStashing; LFetching].
Proof.
  unfold preambleOf, warningOf, header, globsGiven.
  destruct ((0 <? List.length (c_include_glob c)) || (0 <? List.length (c_exclude_glob c)));
    [destruct (exec_LookPath W _ "rg")|]; reflexivity.
Qed.

(** X4.  A run that ends well ends with the restoring: the checkout of
    the branch read at the start (the trimmed answer of [rev-parse]), then
    [git stash pop], then "Search completed!", which is printed nowhere
    before.  The stash is pushed once, right after [rev-parse], and
    popped once, as the last git command. *)
Theorem success_restores (W : World) (c : Context) (done : Trace) :
  Action W c [] = (done, Ok tt) ->
  exists repoPath out before middle,
    filepath_Abs W (c_repo c) = inl repoPath
    /\ cmd_Run W [Stat (filepath_Join repoPath ".git")] repoPath "git" revParse
       = (out, None)
    /\ done = before ++ closing repoPath (TrimSpace out)
    /\ ~ In LCompleted (stdout before)
    /\ gitCalls done
       = revParse :: stashPush :: fetchAll
                  :: middle ++ [["checkout"; TrimSpace out]; stashPop]
    /\ ~ In stashPush middle
    /\ ~ In stashPop middle.
Proof.
  intros H. apply Action_Ok_inv in H.
  destruct H as (repoPath & out & listing & branches & Ha & Hs & Hh & Hl & Hre & ->).
  set (pre := preambleOf W c repoPath (TrimSpace out)) in *.
  set (across := [Stdout (LSearchingAcross (List.length branches))]).
  set (loop := fst (forEach branches _ _)).
  assert (Hv : Visits repoPath branches loop) by apply loop_Visits.
  exists repoPath, out, (pre ++ listing ++ across ++ loop),
    (gitCalls listing ++ flat_map visit (names branches)).
  split; [exact Ha|]. split; [exact Hh|].
  split; [repeat rewrite <- app_assoc; reflexivity|].
  assert (Hlist : (listing = [] \/ listing = [Exec repoPath "git" branchR])).
  { apply listBranches_Ok in Hl. destruct Hl as [(_ & -> & _) | (_ & -> & _)]; auto. }
  split; [|split; [|split]].
  - rewrite !stdout_app. subst pre. rewrite stdout_preambleOf, !in_app_iff.
    intros [[H|[H|H]]|[H|[H|H]]].
    + simpl in H. intuition discriminate.
    + destruct (globsGiven c && _); simpl in H; intuition discriminate.
    + simpl in H. intuition discriminate.
    + destruct Hlist as [-> | ->]; destruct H.
    + simpl in H. intuition discriminate.
    + apply (loopLine_In _ _ (Visits_stdout _ _ _ Hv)) in H. discriminate H.
  - rewrite !gitCalls_app. subst pre. rewrite gitCalls_preambleOf.
    rewrite (Visits_gitCalls _ _ _ Hv). simpl. rewrite <- app_assoc. reflexivity.
  - rewrite in_app_iff. intros [H|H].
    + destruct Hlist as [-> | ->]; simpl in H; intuition discriminate.
    + apply In_visit in H. destruct H as (b & _ & [H|H]); discriminate H.
  - rewrite in_app_iff. intros [H|H].
    + destruct Hlist as [-> | ->]; simpl in H; intuition discriminate.
    + apply In_visit in H. destruct H as (b & _ & [H|H]); discriminate H.
Qed.

Lemma success_restores_witness :
  exists before,
    fst (Action Demo.world (Demo.request "/repo" "TODO" "feature-x") [])
    = before ++ closing "/repo" "main".
Proof.
  destruct (success_restores Demo.world (Demo.request "/repo" "TODO" "feature-x") _ eq_refl)
    as (repoPath & out & before & middle & Ha & Hh & Hd & _).
  injection Ha as <-. injection Hh as <-.
  exists before. exact Hd.
Defined.

(** X5.  A run that ends well announces once the number of branches it
    will search: the number of entries of the list it goes through, the
    blank ones included.  With [--branches] the list is its entries
    between the commas (one more than the commas); without, it is what
    lines 146-151 make of the answer the run got from [git branch -r].
    The loop goes to the entries that are not blank, trimmed, so it may
    go to fewer branches than announced, never to more. *)
Theorem announced_branches (W : World) (c : Context) (done : Trace) :
  Action W c [] = (done, Ok tt) ->
  exists branches,
    announced done = [List.length branches]
    /\ visited done = names branches
    /\ List.length (visited done) <= List.length branches
    /\ (c_branches c <> "" ->
        branches = Split (c_branches c) comma
        /\ List.length branches = Count comma (c_branches c) + 1)
    /\ (c_branches c = "" ->
        exists repoPath past rest listed,
          done = past ++ Exec repoPath "git" branchR :: rest
          /\ gitCalls past = [revParse; stashPush; fetchAll]
          /\ cmd_Run W past repoPath "git" branchR = (listed, None)
          /\ branches = remoteBranches (TrimSpace listed)).
Proof.
  intros H. apply Action_Ok_inv in H.
  destruct H as (repoPath & out & listing & branches & Ha & Hs & Hh & Hl & Hre & Hdone).
  set (pre := preambleOf W c repoPath (TrimSpace out)) in *.
  set (loop := fst (forEach branches _ _)) in Hdone.
  assert (Hv : Visits repoPath branches loop) by apply loop_Visits.
  exists branches.
  apply listBranches_Ok in Hl.
  assert (Hvis : visited done = names branches).
  { rewrite Hdone, !visited_app, (Visits_visited _ _ _ Hv).
    unfold visited at 1. subst pre. rewrite gitCalls_preambleOf.
    destruct Hl as [(_ & -> & _) | (_ & -> & _)]; simpl; rewrite app_nil_r; reflexivity. }
  split; [|split; [exact Hvis|split; [|split]]].
  - rewrite Hdone, !announced_app.
    rewrite (loopLine_announced loop (Visits_stdout _ _ _ Hv)).
    unfold announced at 1. subst pre. rewrite stdout_preambleOf.
    destruct Hl as [(_ & -> & _) | (_ & -> & _)];
      destruct (globsGiven c && _); reflexivity.
  - rewrite Hvis. apply names_length.
  - intros Hb. destruct Hl as [(_ & _ & ->) | (Hnil & _)]; [|contradiction].
    split; [reflexivity|]. unfold Split. rewrite StringFacts.SplitN_length. lia.
  - intros Hb. destruct Hl as [(Hne & _) | (_ & El & listed & Hrun & ->)];
      [contradiction|].
    rewrite El in Hdone.
    eexists repoPath, pre, _, listed.
    split; [exact Hdone|]. split; [apply gitCalls_preambleOf|].
    split; [exact Hrun | reflexivity].
Qed.

Lemma announced_branches_witness :
  announced (fst (Action Demo.world (Demo.request "/repo" "TODO" "main,,dev") [])) = [3]
  /\ visited (fst (Action Demo.world (Demo.request "/repo" "TODO" "main,,dev") []))
     = ["main"; "dev"].
Proof.
  destruct (announced_branches Demo.world (Demo.request "/repo" "TODO" "main,,dev") _ eq_refl)
    as (branches & Hn & Hv & _ & Hc & _).
  destruct (Hc ltac:(discriminate)) as [-> _].
  split; [exact Hn | exact Hv].
Defined.

(** X3.  Without [--branches], in a run that passes the checks, the
    loop goes to the remote branches [git branch -r] lists, in the order
    listed: each line trimmed, the blank lines and the lines with [->]
    (symbolic refs) left out, one [origin/] prefix cut.  The listing is
    the fourth git command, after the stash push and the fetch. *)
Theorem remote_branches_visited (W : World) (c : Context) (repoPath out listed : string) :
  c_branches c = "" ->
  filepath_Abs W (c_repo c) = inl repoPath ->
  os_IsNotExist W [] (filepath_Join repoPath ".git") = false ->
  cmd_Run W [Stat (filepath_Join repoPath ".git")] repoPath "git" revParse
    = (out, None) ->
  cmd_Run W (preambleOf W c repoPath (TrimSpace out)) repoPath "git" branchR
    = (listed, None) ->
  regexp_Compile W (c_regex c) = None ->
  exists done,
    Action W c [] = (done, Ok tt)
    /\ visited done = names (remoteBranches (TrimSpace listed))
    /\ gitCalls done
       = [revParse; stashPush; fetchAll; branchR]
           ++ flat_map visit (names (remoteBranches (TrimSpace listed)))
           ++ [["checkout"; TrimSpace out]; stashPop]
    /\ (forall b, In b (visited done) ->
                  exists line,
                    In line (Split (TrimSpace listed) newline)
                    /\ Contains (TrimSpace line) "->" = false
                    /\ b = TrimSpace (TrimPrefix (TrimSpace line) "origin/")).
Proof.
  intros Hb Ha Hs Hh Hl Hre.
  rewrite Action_unfolded. unfold unfolded. rewrite Ha. cbv zeta. rewrite Hs, Hh.
  rewrite listBranches_run, Hb. cbn [String.eqb]. rewrite Hl. cbn [fst snd].
  rewrite Hre.
  set (pre := preambleOf W c repoPath (TrimSpace out)).
  set (branches := remoteBranches (TrimSpace listed)).
  set (loop := fst (forEach branches _ _)).
  assert (Hv : Visits repoPath branches loop) by apply loop_Visits.
  eexists. split; [reflexivity|].
  assert (Hvis : visited (pre ++ [Exec repoPath "git" branchR]
                              ++ [Stdout (LSearchingAcross (List.length branches))]
                              ++ loop ++ closing repoPath (TrimSpace out))
                 = names branches).
  { rewrite !visited_app, (Visits_visited _ _ _ Hv).
    unfold visited at 1. subst pre. rewrite gitCalls_preambleOf.
    simpl. rewrite app_nil_r. reflexivity. }
  split; [exact Hvis|]. split.
  - rewrite !gitCalls_app. subst pre. rewrite gitCalls_preambleOf.
    rewrite (Visits_gitCalls _ _ _ Hv). reflexivity.
  - rewrite Hvis. intros b Hin. apply In_names in Hin.
    destruct Hin as (_ & raw & Hraw & ->).
    apply In_remoteBranches in Hraw. destruct Hraw as (line & Hin & _ & Hc & ->).
    exists line. auto.
Qed.

Lemma remote_branches_visited_witness :
  exists done,
    Action Demo.world (Demo.request "/repo" "TODO" "") [] = (done, Ok tt)
    /\ visited done = ["main"; "feature-x"].
Proof.
  destruct (remote_branches_visited Demo.world (Demo.request "/repo" "TODO" "")
              "/repo" ("main" ++ Demo.lf)%string Demo.remotes)
    as (done & E & Hv & _); try reflexivity.
  exists done. split; [exact E | exact Hv].
Defined.

(** X8.  In a run that passes the first three checks, the lines printed
    start with the header; the warning about the globs comes next, once,
    exactly when a glob is given and [rg] is not found at that moment;
    then the stashing and fetching lines.  The warning is never printed
    again, however many branches are searched. *)
Theorem glob_warning (W : World) (c : Context) (repoPath out : string) :
  filepath_Abs W (c_repo c) = inl repoPath ->
  os_IsNotExist W [] (filepath_Join repoPath ".git") = false ->
  cmd_Run W [Stat (filepath_Join repoPath ".git")] repoPath "git" revParse
    = (out, None) ->
  exists rest,
    stdout (fst (Action W c []))
    = [LRepository repoPath; LSearchPattern (c_regex c);
       LCurrentBranch (TrimSpace out); LBlank]
        ++ (if globsGiven c
               && negb (exec_LookPath W (header c repoPath (TrimSpace out)) "rg")
            then [LWarnNoRipgrep] else [])
        ++ [LStashing; LFetching] ++ rest
    /\ ~ In LWarnNoRipgrep rest.
Proof.
  intros Ha Hs Hh.
  rewrite Action_unfolded. unfold unfolded. rewrite Ha. cbv zeta. rewrite Hs, Hh.
  set (pre := preambleOf W c repoPath (TrimSpace out)).
  assert (Hpre : forall t,
             stdout (pre ++ t)
             = [LRepository repoPath; LSearchPattern (c_regex c);
                LCurrentBranch (TrimSpace out); LBlank]
                 ++ (if globsGiven c
                        && negb (exec_LookPath W (header c repoPath (TrimSpace out)) "rg")
                     then [LWarnNoRipgrep] else [])
                 ++ [LStashing; LFetching] ++ stdout t).
  { intros t. rewrite stdout_app. subst pre. rewrite stdout_preambleOf.
    repeat rewrite <- app_assoc. reflexivity. }
  rewrite listBranches_run.
  assert (Hlisting : forall listing : Trace,
             listing = [] \/ listing = [Exec repoPath "git" branchR] ->
             stdout listing = []).
  { intros listing [-> | ->]; reflexivity. }
  destruct (String.eqb (c_branches c) "");
    [destruct (snd (cmd_Run W pre repoPath "git" branchR))|];
    try destruct (regexp_Compile W (c_regex c));
    cbn [fst]; rewrite Hpre; eexists; (split; [reflexivity|]);
    try (simpl; tauto).
  all: rewrite !stdout_app, !in_app_iff; simpl;
    match goal with
    | |- context [forEach ?bs ?f ?p] =>
        pose proof (Visits_stdout _ _ _ (loop_Visits W repoPath (c_regex c)
                                           (c_include_glob c) (c_exclude_glob c) bs p))
          as Hloop
    end;
    intros H; repeat destruct H as [H|H]; try discriminate H; try contradiction;
    apply (loopLine_In _ _ Hloop) in H; discriminate H.
Qed.

Lemma glob_warning_witness :
  exists rest,
    stdout (fst (Action Fallback.world (Fallback.request "TODO" "main" ["*.go"] []) []))
    = [LRepository "/repo"; LSearchPattern "TODO"; LCurrentBranch "main"; LBlank]
        ++ [LWarnNoRipgrep] ++ [LStashing; LFetching] ++ rest
    /\ ~ In LWarnNoRipgrep rest.
Proof.
  exact (glob_warning Fallback.world (Fallback.request "TODO" "main" ["*.go"] [])
           "/repo" ("main" ++ Demo.lf)%string eq_refl eq_refl eq_refl).
Defined.

(** The searches of the loop when the answer about [rg] never changes. *)
Lemma loop_searches W hasRg repoPath regex includeGlobs excludeGlobs :
  (forall past, exec_LookPath W past "rg" = hasRg) ->
  forall branches past x,
    In x (searches (fst (forEach branches
                                 (searchBranch W repoPath regex includeGlobs excludeGlobs)
                                 past))) ->
    x = searchCmd hasRg regex includeGlobs excludeGlobs.
Proof.
  intros Hrg. induction branches as [|b bs IH]; intros past x.
  - intros [].
  - simpl forEach.
    pose proof (searchBranch_eq W repoPath regex includeGlobs excludeGlobs b past) as E.
    cbv zeta in E. rewrite Hrg in E.
    destruct (String.eqb (TrimSpace b) "");
      rewrite (bind_emit _ _ _ _ _ E); unfold emit; cbn [fst];
      rewrite searches_app, in_app_iff; intros [H|H]; try exact (IH _ _ H).
    + destruct H.
    + rewrite searches_app, searches_printed, app_nil_r in H.
      destruct hasRg; simpl in H; destruct H as [<- | []]; reflexivity.
Qed.

(** X9.  When the answer about [rg] is the same all along the run, every
    search of the run is the same command: with [rg], the flags, the
    globs and the regex; without, [grep -rnE regex .], in which the globs
    given do not appear. *)
Theorem search_command_fixed (W : World) (c : Context) (hasRg : bool) :
  (forall past, exec_LookPath W past "rg" = hasRg) ->
  forall x, In x (searches (fst (Action W c []))) ->
            x = searchCmd hasRg (c_regex c) (c_include_glob c) (c_exclude_glob c)
            /\ (hasRg = false -> x = ("grep", ["-rnE"; c_regex c; "."])).
Proof.
  intros Hrg x Hin.
  assert (Hx : x = searchCmd hasRg (c_regex c) (c_include_glob c) (c_exclude_glob c)).
  { revert Hin. rewrite Action_unfolded. unfold unfolded.
    destruct (filepath_Abs W (c_repo c)) as [repoPath|e]; [|intros []].
    cbv zeta.
    destruct (os_IsNotExist W [] (filepath_Join repoPath ".git")); [intros []|].
    destruct (cmd_Run W [Stat (filepath_Join repoPath ".git")] repoPath "git" revParse)
      as [out [e|]]; [intros []|].
    set (pre := preambleOf W c repoPath (TrimSpace out)).
    assert (Hpre : searches pre = []).
    { unfold searches. subst pre. rewrite subprocesses_preambleOf. reflexivity. }
    rewrite listBranches_run.
    destruct (String.eqb (c_branches c) "");
      [destruct (snd (cmd_Run W pre repoPath "git" branchR))|];
      try destruct (regexp_Compile W (c_regex c));
      cbn [fst]; rewrite !searches_app, Hpre, !in_app_iff;
      try (simpl; tauto).
    all: intros [[]|[H|[H|[H|H]]]]; try (simpl in H; tauto);
      exact (loop_searches W hasRg repoPath _ _ _ Hrg _ _ x H). }
  split; [exact Hx|]. intros ->. exact Hx.
Qed.

Lemma search_command_fixed_witness :
  In ("grep", ["-rnE"; "TODO"; "."])
     (searches (fst (Action Fallback.world
                            (Fallback.request "TODO" "main" ["*.go"] ["vendor"]) [])))
  /\ ("grep", ["-rnE"; "TODO"; "."])
     = searchCmd false "TODO" ["*.go"] ["vendor"].
Proof.
  assert (H : In ("grep", ["-rnE"; "TODO"; "."])
                 (searches (fst (Action Fallback.world
                                        (Fallback.request "TODO" "main" ["*.go"] ["vendor"])
                                        []))))
    by (simpl; tauto).
  split; [exact H|].
  exact (proj1 (search_command_fixed Fallback.world
                  (Fallback.request "TODO" "main" ["*.go"] ["vendor"]) false
                  (fun _ => eq_refl) _ H)).
Defined.

(** *** One turn of the loop *)

Lemma matchLines_printed branch ms :
  matchLines (map (fun m => Stdout (matchLine branch m)) ms) = map (matchLine branch) ms.
Proof.
  unfold matchLines. rewrite stdout_printed.
  induction ms as [|m ms IH]; [reflexivity|]. simpl. f_equal. exact IH.
Qed.

Lemma counts_app a b : counts (a ++ b) = counts a ++ counts b.
Proof. unfold counts. rewrite stdout_app. apply flat_map_app. Qed.

Lemma counts_printed branch ms :
  counts (map (fun m => Stdout (matchLine branch m)) ms) = [].
Proof.
  unfold counts. rewrite stdout_printed.
  induction ms as [|m ms IH]; [reflexivity | exact IH].
Qed.

Lemma matchesOf_nil answer :
  matchesOf answer = [] <-> snd answer <> None /\ fst answer = "".
Proof.
  assert (Hne : forall s, Split s newline <> []).
  { intros s H. assert (Hl : List.length (Split s newline) = Count newline s + 1)
      by (unfold Split; rewrite StringFacts.SplitN_length; lia).
    rewrite H in Hl. simpl in Hl. lia. }
  unfold matchesOf. destruct answer as [out [e|]]; cbn [fst snd].
  - destruct out as [|ch out]; simpl String.length; cbn [Nat.eqb].
    + split; [intros _; split; [discriminate | reflexivity] | reflexivity].
    + split; [intros H; destruct (Hne _ H) | intros [_ H]; discriminate H].
  - split; [intros H; destruct (Hne _ H) | intros [H _]; contradiction].
Qed.

(** X17.  One turn of the loop.  For an entry that is blank once trimmed
    nothing is done at all.  Otherwise the turn runs checkout, pull and
    the search, in this order, and never fails; the count it prints is
    the number of the lines [grepRepo] returned for this search; the
    match lines printed after it are those of the returned lines that
    have two [:] or more, in order, so never more than the count; every
    match line carries the name of the branch; and "No matches found" is
    printed exactly when the search tool failed and printed nothing. *)
Theorem searchBranch_turn (W : World) (repoPath regex : string)
        (includeGlobs excludeGlobs : list string) (branch : string) (past : Trace) :
  let b := TrimSpace branch in
  let before := past ++ [Stdout (LSearchingBranch b);
                         Exec repoPath "git" ["checkout"; b];
                         Stdout (LPulling b);
                         Exec repoPath "git" ["pull"; "origin"; b]] in
  let cmd := searchCmd (exec_LookPath W before "rg") regex includeGlobs excludeGlobs in
  let answer := cmd_Run W (before ++ [LookPath "rg"]) repoPath (fst cmd) (snd cmd) in
  (b = "" ->
   searchBranch W repoPath regex includeGlobs excludeGlobs branch past = ([], Ok tt))
  /\ (b <> "" ->
      exists done matches,
        grepRepo W repoPath regex includeGlobs excludeGlobs before
        = ([LookPath "rg"; Exec repoPath (fst cmd) (snd cmd)], Ok (matches, None))
        /\ searchBranch W repoPath regex includeGlobs excludeGlobs branch past
           = (done, Ok tt)
        /\ subprocesses done
           = [("git", ["checkout"; b]); ("git", ["pull"; "origin"; b]); cmd]
        /\ stdout done
           = [LSearchingBranch b; LPulling b; countLine b matches] ++ matchLines done
        /\ counts done = [List.length matches]
        /\ matchLines done = map (matchLine b) (filter wellFormed matches)
        /\ List.length (matchLines done) <= List.length matches
        /\ (forall l, In l (matchLines done) ->
                      exists file lineNum lineText, l = LMatch b file lineNum lineText)
        /\ (In (LNoMatches b) (stdout done)
            <-> snd answer <> None /\ fst answer = "")).
Proof.
  intros b before cmd answer.
  pose proof (searchBranch_eq W repoPath regex includeGlobs excludeGlobs branch past) as E.
  cbv zeta in E. fold b in E. fold before in E. fold cmd in E. fold answer in E.
  split; intros Hb.
  - rewrite Hb in E. exact E.
  - apply String.eqb_neq in Hb. rewrite Hb in E.
    set (matches := matchesOf answer) in *.
    exists ([Stdout (LSearchingBranch b);
             Exec repoPath "git" ["checkout"; b];
             Stdout (LPulling b);
             Exec repoPath "git" ["pull"; "origin"; b];
             LookPath "rg";
             Exec repoPath (fst cmd) (snd cmd);
             Stdout (countLine b matches)]
              ++ map (fun m => Stdout (matchLine b m)) (filter wellFormed matches)),
      matches.
    split; [apply grepRepo_eq|]. split; [exact E|].
    assert (Hcount : countLine b matches = LNoMatches b /\ matches = []
                     \/ countLine b matches = LFound (List.length matches) b
                        /\ matches <> []).
    { unfold countLine. destruct matches; [left | right]; simpl; split;
        try reflexivity; try discriminate. }
    assert (Hlines : matchLines
                       ([Stdout (LSearchingBranch b);
                         Exec repoPath "git" ["checkout"; b];
                         Stdout (LPulling b);
                         Exec repoPath "git" ["pull"; "origin"; b];
                         LookPath "rg";
                         Exec repoPath (fst cmd) (snd cmd);
                         Stdout (countLine b matches)]
                          ++ map (fun m => Stdout (matchLine b m))
                                 (filter wellFormed matches))
                     = map (matchLine b) (filter wellFormed matches)).
    { rewrite matchLines_app, matchLines_printed.
      destruct Hcount as [[Hc _] | [Hc _]]; unfold matchLines; simpl; rewrite Hc;
        reflexivity. }
    rewrite Hlines.
    split; [|split; [|split; [|split; [reflexivity|split; [|split]]]]].
    + rewrite subprocesses_app, subprocesses_printed. simpl.
      destruct cmd. reflexivity.
    + rewrite stdout_app, stdout_printed. reflexivity.
    + rewrite counts_app, counts_printed, app_nil_r. unfold counts. simpl.
      destruct Hcount as [[-> ->] | [-> _]]; reflexivity.
    + rewrite length_map. apply filter_length_le.
    + intros l H. apply in_map_iff in H. destruct H as (m & <- & _).
      unfold matchLine. eauto.
    + rewrite <- (matchesOf_nil answer). fold matches.
      rewrite stdout_app, stdout_printed, in_app_iff. simpl. split.
      * intros [[H|[H|[H|[]]]]|H]; try discriminate H.
        -- destruct Hcount as [[_ Hn] | [Hc _]]; [exact Hn|].
           rewrite Hc in H. discriminate H.
        -- apply in_map_iff in H. destruct H as (m & H & _). discriminate H.
      * intros Hn. destruct Hcount as [[Hc _] | [_ Hc]]; [|contradiction].
        rewrite Hc. auto.
Qed.

(** *** The listing of the remote branches *)

Lemma list_append a b :
  list_ascii_of_string (a ++ b) = list_ascii_of_string a ++ list_ascii_of_string b.
Proof. induction a as [|c a IH]; simpl; [reflexivity | f_equal; exact IH]. Qed.

Lemma append_assoc (a b c : string) : ((a ++ b) ++ c = a ++ b ++ c)%string.
Proof. induction a as [|ch a IH]; simpl; [reflexivity | f_equal; exact IH]. Qed.

Lemma list_not_nil s : s <> "" -> list_ascii_of_string s <> [].
Proof. destruct s; [contradiction | discriminate]. Qed.

(** No white space of two or three bytes ends in [/] or goes over it. *)
Lemma endsInName_ends l : endsInName l -> endsWithSpace l = false.
Proof.
  intros (front & name & -> & Hne & He).
  unfold endsWithSpace in *. rewrite rev_app_distr. simpl rev.
  destruct (rev name) as [|a [|b [|x rest]]] eqn:Er.
  - apply (f_equal (@rev ascii)) in Er. rewrite rev_involutive in Er. contradiction.
  - simpl in *. rewrite orb_false_r in He. rewrite He. reflexivity.
  - simpl in *. apply orb_false_iff in He. destruct He as [H1 H2].
    rewrite orb_false_r in H2. rewrite H1, H2. reflexivity.
  - simpl in *. exact He.
Qed.

Lemma endsInName_app p l : endsInName l -> endsInName (p ++ l).
Proof.
  intros (front & name & -> & Hne & He).
  exists (p ++ front), name. rewrite app_assoc. auto.
Qed.

Lemma plainName_ends prefix name :
  plainName name ->
  endsInName (list_ascii_of_string (prefix ++ "origin/" ++ name)%string).
Proof.
  intros (Hne & _ & He).
  exists (list_ascii_of_string (prefix ++ "origi")%string), (list_ascii_of_string name).
  split; [|split; [apply list_not_nil; exact Hne | exact He]].
  rewrite !list_append. rewrite <- app_assoc. reflexivity.
Qed.

Lemma refText_ends prefix r :
  plainRef r ->
  endsInName (list_ascii_of_string (prefix ++ "origin/" ++ refText r)%string).
Proof.
  destruct r as [name | name target]; simpl refText.
  - intros Hp. apply plainName_ends. exact Hp.
  - intros [_ Hp].
    pose proof (plainName_ends (prefix ++ "origin/" ++ name ++ " -> ") target Hp) as H.
    rewrite !append_assoc in H. exact H.
Qed.

Lemma Join_ends lines :
  lines <> [] ->
  Forall (fun line => endsInName (list_ascii_of_string line)) lines ->
  endsInName (list_ascii_of_string (Join lines newline)).
Proof.
  intros Hne Hall. induction Hall as [|e rest He Hrest IH]; [contradiction|].
  destruct rest as [|e' rest]; [exact He|].
  rewrite Join_cons by discriminate. rewrite list_append.
  apply endsInName_app.
  change (list_ascii_of_string (String newline (Join (e' :: rest) newline)))
    with ([newline] ++ list_ascii_of_string (Join (e' :: rest) newline)).
  apply endsInName_app. apply IH. discriminate.
Qed.

Lemma trimRight_newline body :
  endsWithSpace body = false -> trimRight (body ++ [newline]) = body.
Proof.
  intros H. unfold trimRight. rewrite rev_app_distr.
  change (rev [newline] ++ rev body) with (newline :: rev body).
  rewrite StringFacts.dropRunes_unfold.
  change (isSpace1 newline) with true. cbv iota.
  rewrite StringFacts.dropRunes_id by exact H. apply rev_involutive.
Qed.

(** The answer of git, trimmed: the two spaces in front and the newline
    at the end are cut. *)
Lemma TrimSpace_listing x :
  endsInName (list_ascii_of_string ("origin/" ++ x)%string) ->
  TrimSpace ("  origin/" ++ x ++ String newline "")%string = ("origin/" ++ x)%string.
Proof.
  intros H. unfold TrimSpace.
  replace (trimLeft (list_ascii_of_string ("  origin/" ++ x ++ String newline "")))
    with (list_ascii_of_string ("origin/" ++ x)%string ++ [newline]).
  - rewrite trimRight_newline by (apply endsInName_ends; exact H).
    apply string_of_list_ascii_of_string.
  - assert (E : trimLeft (list_ascii_of_string ("  origin/" ++ x ++ String newline ""))
                = list_ascii_of_string ("origin/" ++ x ++ String newline "")%string)
      by reflexivity.
    rewrite E. change [newline] with (list_ascii_of_string (String newline "")).
    rewrite <- list_append, append_assoc. reflexivity.
Qed.

(** A line, trimmed: the two spaces in front are cut, if they are there. *)
Lemma TrimSpace_line x :
  endsInName (list_ascii_of_string ("origin/" ++ x)%string) ->
  TrimSpace ("origin/" ++ x)%string = ("origin/" ++ x)%string
  /\ TrimSpace ("  origin/" ++ x)%string = ("origin/" ++ x)%string.
Proof.
  intros H. pose proof (endsInName_ends _ H) as He.
  assert (Hr : trimRight (list_ascii_of_string ("origin/" ++ x)%string)
               = list_ascii_of_string ("origin/" ++ x)%string)
    by (apply StringFacts.trimRight_id; exact He).
  split; unfold TrimSpace.
  - replace (trimLeft (list_ascii_of_string ("origin/" ++ x)%string))
      with (list_ascii_of_string ("origin/" ++ x)%string) by reflexivity.
    rewrite Hr. apply string_of_list_ascii_of_string.
  - replace (trimLeft (list_ascii_of_string ("  origin/" ++ x)%string))
      with (list_ascii_of_string ("origin/" ++ x)%string) by reflexivity.
    rewrite Hr. apply string_of_list_ascii_of_string.
Qed.

Lemma Contains_append a substr b : Contains (a ++ substr ++ b)%string substr = true.
Proof.
  induction a as [|ch a IH].
  - apply Contains_HasPrefix. apply TrimPrefix_prefix_iff. exists b. reflexivity.
  - simpl. rewrite IH. apply orb_true_r.
Qed.

Lemma TrimPrefix_append prefix rest : TrimPrefix (prefix ++ rest)%string prefix = rest.
Proof.
  unfold TrimPrefix.
  replace (HasPrefix (prefix ++ rest) prefix) with true
    by (symmetry; apply TrimPrefix_prefix_iff; eauto).
  induction prefix as [|ch prefix IH]; simpl; [reflexivity | exact IH].
Qed.

Lemma refText_newline r :
  plainRef r ->
  Count newline ("origin/" ++ refText r) = 0 /\ Count newline (renderRef r) = 0.
Proof.
  unfold renderRef, remoteLine. rewrite !Count_append.
  change (Count newline "origin/") with 0. change (Count newline "  origin/") with 0.
  destruct r as [name | name target]; simpl refText.
  - intros (_ & Hc & _). rewrite Hc. auto.
  - intros [Hn (_ & Hc & _)].
    change (String " " (String "-" (String ">" (String " " (String "o" (String "r"
              (String "i" (String "g" (String "i" (String "n" (String "/" target)))))))))))
      with (" -> origin/" ++ target)%string.
    rewrite !Count_append, Hn, Hc. auto.
Qed.

(** What lines 147-150 make of one line of the listing. *)
Lemma parse_ref r :
  plainRef r ->
  forall line, line = ("origin/" ++ refText r)%string \/ line = renderRef r ->
  remoteBranches line = branchesOf [r].
Proof.
  intros Hr line Hline.
  destruct (refText_newline r Hr) as [Hc0 Hc2].
  destruct (TrimSpace_line (refText r) (refText_ends "" r Hr)) as [Ht0 Ht2].
  assert (Ht : TrimSpace line = ("origin/" ++ refText r)%string)
    by (destruct Hline as [-> | ->]; assumption).
  assert (Hs : Split line newline = [line]).
  { assert (Hc : Count newline line = 0) by (destruct Hline as [-> | ->]; assumption).
    rewrite Split_splitLoop, Hc. reflexivity. }
  unfold remoteBranches. rewrite Hs. simpl flat_map. rewrite Ht, app_nil_r.
  change (String.eqb ("origin/" ++ refText r) "") with false. cbn [negb andb].
  destruct r as [name | name target]; cbn [refText] in *.
  - change (Contains ("origin/" ++ name) "->") with (Contains name "->").
    unfold branchesOf. cbn [flat_map]. rewrite app_nil_r.
    destruct (Contains name "->"); cbn [negb]; [reflexivity|].
    rewrite TrimPrefix_append. reflexivity.
  - pose proof (Contains_append ("origin/" ++ name ++ " ") "->" (" origin/" ++ target)) as H.
    rewrite !append_assoc in H.
    change (" " ++ "->" ++ " origin/" ++ target)%string
      with (" -> origin/" ++ target)%string in H.
    rewrite H. reflexivity.
Qed.

Lemma remoteBranches_Join lines :
  lines <> [] ->
  Forall (fun line => Count newline line = 0) lines ->
  remoteBranches (Join lines newline) = flat_map remoteBranches lines.
Proof.
  intros Hne Hall.
  assert (Hone : forall line, Count newline line = 0 ->
                              remoteBranches line
                              = (let b := TrimSpace line in
                                 if negb (String.eqb b "") && negb (Contains b "->")
                                 then [TrimPrefix b "origin/"] else [])).
  { intros line Hc. unfold remoteBranches. rewrite Split_splitLoop, Hc.
    simpl. apply app_nil_r. }
  unfold remoteBranches at 1.
  rewrite Split_splitLoop, splitLoop_Join; try assumption;
    [|rewrite Count_Join by exact Hall; lia].
  clear Hne. induction Hall as [|line rest Hc _ IH]; [reflexivity|].
  simpl flat_map. rewrite (Hone line Hc), IH. reflexivity.
Qed.

Lemma Join_strip prefix first rest :
  Join ((prefix ++ first)%string :: rest) newline
  = (prefix ++ Join (first :: rest) newline)%string.
Proof.
  destruct rest as [|e rest]; [reflexivity|].
  rewrite !Join_cons by discriminate. apply append_assoc.
Qed.

(** X18.  The listing of [git branch -r] is read as it is written, but
    for the arrow: when git answers with a line for each ref of [origin]
    (two spaces, [origin/], the name; for a symbolic ref also an arrow
    and its target), [listBranches] returns the names of the branches,
    without [origin/], in the order listed; it leaves out the symbolic
    refs, and with them every branch that has [->] in its own name. *)
Theorem remote_listing_parsed (W : World) (repoPath : string) (past : Trace)
        (refs : list RemoteRef) :
  refs <> [] ->
  (forall r, In r refs -> plainRef r) ->
  cmd_Run W past repoPath "git" branchR = (renderRefs refs, None) ->
  listBranches W repoPath "" past
  = ([Exec repoPath "git" branchR], Ok (branchesOf refs)).
Proof.
  intros Hne Hall Hrun. apply Forall_forall in Hall.
  rewrite listBranches_run. cbn [String.eqb]. rewrite Hrun. cbn [fst snd].
  do 2 f_equal.
  destruct refs as [|r rs]; [contradiction|]. clear Hne.
  pose proof (Forall_inv Hall) as Hr. pose proof (Forall_inv_tail Hall) as Hrs.
  set (first := ("origin/" ++ refText r)%string).
  set (lines := first :: map renderRef rs).
  assert (Hends : Forall (fun line => endsInName (list_ascii_of_string line)) lines).
  { constructor; [exact (refText_ends "" r Hr)|].
    apply Forall_map. apply Forall_forall. intros r' Hin.
    exact (refText_ends "  " r' (proj1 (Forall_forall _ _) Hrs r' Hin)). }
  assert (Hcount : Forall (fun line => Count newline line = 0) lines).
  { constructor; [exact (proj1 (refText_newline r Hr))|].
    apply Forall_map. apply Forall_forall. intros r' Hin.
    exact (proj2 (refText_newline r' (proj1 (Forall_forall _ _) Hrs r' Hin))). }
  assert (Htrim : TrimSpace (renderRefs (r :: rs)) = Join lines newline).
  { unfold renderRefs. simpl map.
    change (renderRef r) with ("  " ++ first)%string.
    rewrite Join_strip, append_assoc.
    assert (Hhead : exists x, Join lines newline = ("origin/" ++ x)%string).
    { unfold lines, first. destruct (map renderRef rs) as [|e rest].
      - exists (refText r). reflexivity.
      - rewrite Join_cons by discriminate. rewrite append_assoc. eauto. }
    destruct Hhead as [x Hx].
    fold lines. rewrite Hx.
    apply (TrimSpace_listing x). rewrite <- Hx.
    apply Join_ends; [discriminate | exact Hends]. }
  rewrite Htrim, remoteBranches_Join; [|discriminate | exact Hcount].
  unfold lines. simpl flat_map.
  rewrite (parse_ref r Hr first (or_introl eq_refl)).
  assert (Hcons : forall x xs, branchesOf (x :: xs) = branchesOf [x] ++ branchesOf xs).
  { intros x xs. unfold branchesOf. simpl. rewrite app_nil_r. reflexivity. }
  rewrite (Hcons r rs). f_equal.
  clear Hends Hcount Htrim Hall Hrun lines.
  induction Hrs as [|r' rs' Hr' _ IH]; [reflexivity|].
  simpl map. simpl flat_map.
  rewrite (parse_ref r' Hr' (renderRef r') (or_intror eq_refl)), IH.
  symmetry. apply Hcons.
Qed.

Lemma remote_listing_parsed_witness :
  listBranches Arrows.world "/repo" "" []
  = ([Exec "/repo" "git" branchR], Ok ["main"; "feature-x"]).
Proof.
  apply (remote_listing_parsed Arrows.world "/repo" [] Arrows.refs).
  - discriminate.
  - intros r [<- | [<- | [<- | [<- | []]]]]; repeat split; try discriminate; reflexivity.
  - reflexivity.
Defined.

End More.

(** ** The names the loop uses and the lines it counts *)

(** C3, as the specification has it, fails: a name given with
    [--branches] keeps its [origin/] prefix. *)
Lemma C3_counterexample :
  visited (fst (Action Demo.world (Demo.request "/repo" "TODO" "origin/main") []))
  = ["origin/main"]
  /\ normalize "origin/main" = "main"
  /\ ~ (forall b,
           In b (visited (fst (Action Demo.world
                                      (Demo.request "/repo" "TODO" "origin/main") []))) ->
           HasPrefix b "origin/" = false).
Proof.
  split; [reflexivity|]. split; [reflexivity|].
  intros H. specialize (H "origin/main" (or_introl eq_refl)). discriminate H.
Qed.

(** C3, amended.  Every name the loop goes to is trimmed of surrounding
    white space and is not empty.  With [--branches] it is an entry of
    the list, trimmed, and the [origin/] prefix is not cut.  Without, it
    comes from the answer the run got from [git branch -r], its fourth
    git command: a line of the trimmed answer that has no [->], the line
    trimmed, one [origin/] prefix cut, and trimmed again. *)
Theorem C3_names_used (W : World) (c : Context) (b : string) :
  In b (visited (fst (Action W c []))) ->
  TrimSpace b = b
  /\ b <> ""
  /\ ((c_branches c <> ""
       /\ exists raw, In raw (Split (c_branches c) comma) /\ b = TrimSpace raw)
      \/ (c_branches c = ""
          /\ exists repoPath past rest listed line,
              fst (Action W c []) = past ++ Exec repoPath "git" branchR :: rest
              /\ gitCalls past = [revParse; stashPush; fetchAll]
              /\ cmd_Run W past repoPath "git" branchR = (listed, None)
              /\ In line (Split (TrimSpace listed) newline)
              /\ Contains (TrimSpace line) "->" = false
              /\ b = TrimSpace (TrimPrefix (TrimSpace line) "origin/"))).
Proof.
  destruct (Action W c []) as [done r] eqn:E. cbn [fst].
  destruct r as [[]|e].
  2:{ destruct (Action_Outcome W c) as (done' & r' & E' & Ho).
      rewrite E in E'. injection E' as <- <-.
      rewrite (Failed_visited _ _ _ _ Ho). intros []. }
  destruct (More.Action_Ok_inv W c done E)
    as (repoPath & out & listing & branches & Ha & Hs & Hh & Hl & Hre & Hdone).
  set (pre := preambleOf W c repoPath (TrimSpace out)) in *.
  assert (Hv : visited done = names branches).
  { rewrite Hdone, !visited_app.
    rewrite (Visits_visited _ _ _ (More.loop_Visits W repoPath _ _ _ branches _)).
    unfold visited at 1. subst pre. rewrite More.gitCalls_preambleOf.
    apply More.listBranches_Ok in Hl.
    destruct Hl as [(_ & -> & _) | (_ & -> & _)]; simpl; rewrite app_nil_r; reflexivity. }
  rewrite Hv. intros Hin. apply In_names in Hin. destruct Hin as (Hne & raw & Hraw & ->).
  split; [apply StringFacts.TrimSpace_idempotent|]. split; [exact Hne|].
  apply More.listBranches_Ok in Hl.
  destruct Hl as [(Hb & _ & ->) | (Hb & -> & listed & Hrun & ->)].
  - left. split; [exact Hb|]. exists raw. auto.
  - right. split; [exact Hb|].
    apply In_remoteBranches in Hraw. destruct Hraw as (line & Hline & _ & Hc & ->).
    eexists repoPath, pre, _, listed, line.
    split; [exact Hdone|].
    split; [apply More.gitCalls_preambleOf|].
    split; [exact Hrun|]. split; [exact Hline|]. split; [exact Hc | reflexivity].
Qed.

Lemma C3_names_used_witness :
  In "feature-x" (visited (fst (Action Demo.world (Demo.request "/repo" "TODO" "") [])))
  /\ TrimSpace "feature-x" = "feature-x"
  /\ "feature-x" <> ""
  /\ exists line,
      In line (Split (TrimSpace Demo.remotes) newline)
      /\ "feature-x" = TrimSpace (TrimPrefix (TrimSpace line) "origin/").
Proof.
  assert (H : In "feature-x"
                 (visited (fst (Action Demo.world (Demo.request "/repo" "TODO" "") []))))
    by (simpl; tauto).
  destruct (C3_names_used Demo.world (Demo.request "/repo" "TODO" "") "feature-x" H)
    as (H1 & H2 & [[Hb _] | [_ H3]]); [destruct (Hb eq_refl)|].
  destruct H3 as (repoPath & past & rest & listed & line & _ & _ & Hrun & Hline & _ & Hb).
  injection Hrun as <-.
  split; [exact H|]. split; [exact H1|]. split; [exact H2|].
  exists line. split; [exact Hline | exact Hb].
Defined.

Lemma length_kept_skipped matches :
  List.length matches
  = List.length (filter wellFormed matches)
    + List.length (filter (fun m => Count colon m <? 2) matches).
Proof.
  induction matches as [|m ms IH]; [reflexivity|].
  simpl. unfold wellFormed at 1.
  destruct (2 <=? Count colon m) eqn:E.
  - apply Nat.leb_le in E.
    replace (Count colon m <? 2) with false by (symmetry; apply Nat.ltb_ge; lia).
    simpl. lia.
  - apply Nat.leb_gt in E.
    replace (Count colon m <? 2) with true by (symmetry; apply Nat.ltb_lt; lia).
    simpl. lia.
Qed.

(** C4, as the specification has it, fails: a line the loop drops is
    counted all the same, so the count depends on it.  With one line of
    a match and one line without colons the count is 2 and one match
    line is printed; without the second line the count is 1. *)
Lemma C4_counterexample :
  stdout (fst (report "main" ["foo.go:10:// TODO fix"; "Binary file ./a.out matches"] []))
  = [LFound 2 "main"; LMatch "main" "foo.go" "10" "// TODO fix"]
  /\ stdout (fst (report "main" ["foo.go:10:// TODO fix"] []))
     = [LFound 1 "main"; LMatch "main" "foo.go" "10" "// TODO fix"]
  /\ counts (fst (report "main" ["foo.go:10:// TODO fix"; "Binary file ./a.out matches"] []))
     <> [List.length
           (matchLines
              (fst (report "main"
                           ["foo.go:10:// TODO fix"; "Binary file ./a.out matches"] [])))].
Proof.
  split; [reflexivity|]. split; [reflexivity|]. discriminate.
Qed.

(** C4, amended.  For the lines the search tool gave for a branch: a
    line is printed as a match exactly when it has two [:] or more; it
    is cut at its first two [:], so the file and the line number hold
    none, and the three parts make up the line.  A line with fewer is
    skipped: nothing is printed for it.  It is counted all the same: the
    count printed before is the number of all the lines, that is, of the
    match lines printed and of the lines skipped together. *)
Theorem C4_match_lines (branch : string) (matches : list string) (past : Trace) :
  (forall m past',
      (2 <= Count colon m ->
       exists file lineNum lineText,
         printMatch branch m past'
         = ([Stdout (LMatch branch file lineNum lineText)], Ok tt)
         /\ m = (file ++ String colon (lineNum ++ String colon lineText))%string
         /\ Count colon file = 0
         /\ Count colon lineNum = 0)
      /\ (Count colon m < 2 -> printMatch branch m past' = ([], Ok tt)))
  /\ (exists done,
         report branch matches past = (done, Ok tt)
         /\ matchLines done = map (matchLine branch) (filter wellFormed matches)
         /\ stdout done = countLine branch matches :: matchLines done
         /\ counts done = [List.length matches]
         /\ List.length matches
            = List.length (matchLines done)
              + List.length (filter (fun m => Count colon m <? 2) matches)).
Proof.
  split; [intros m past'; split|].
  - intros H. destruct (StringFacts.SplitN_three m H) as (f & n & t & Hs & Hm & Hf & Hn).
    exists f, n, t. split; [|auto].
    rewrite printMatch_eq. unfold wellFormed, matchLine.
    apply Nat.leb_le in H. rewrite H, Hs. reflexivity.
  - intros H. rewrite printMatch_eq. unfold wellFormed.
    apply Nat.leb_gt in H. rewrite H. reflexivity.
  - eexists. split; [apply report_eq|].
    assert (Hc : matchLines [Stdout (countLine branch matches)] = []).
    { unfold countLine. destruct (0 <? List.length matches); reflexivity. }
    change (Stdout (countLine branch matches)
              :: map (fun m => Stdout (matchLine branch m)) (filter wellFormed matches))
      with ([Stdout (countLine branch matches)]
              ++ map (fun m => Stdout (matchLine branch m)) (filter wellFormed matches)).
    rewrite matchLines_app, Hc, More.matchLines_printed, stdout_app, stdout_printed.
    rewrite More.counts_app, More.counts_printed, app_nil_r.
    split; [reflexivity|]. split; [reflexivity|]. split.
    + unfold counts, countLine. destruct matches; reflexivity.
    + simpl app. rewrite length_map. apply length_kept_skipped.
Qed.
